(** * StakeVault: a shallow embedding of the self-stake escrow contract

    The contract [StakeVault] (Solidity ^0.8.24) locks a token amount for a
    number of days, lets a verifier unlock one equal slice per completed day,
    lets the challenge's user withdraw what is unlocked and sweeps the rest to
    a beneficiary at finalization.

    The embedding follows the contract function by function:
    - [uint256] values are integers in [0, 2^256) and every [+], [-], [*], [/]
      of the contract is the checked operation of Solidity 0.8 (a panic on
      overflow, underflow or division by zero);
    - storage is a record; the two [mapping]s are finite maps read with the
      zero default of Solidity;
    - a function body is a program in a small resumption monad: it reads and
      writes the storage, may revert, and may call out to the token; the call
      node shows the storage the callee would see;
    - a transaction executes such a program against a token (any
      implementation of the [IERC20] interface) and keeps the new storage only
      when the program completes: a revert restores storage, log and token. *)

From stdpp Require Import gmap list.
From Stdlib Require Import ZArith Lia.

Local Open Scope Z_scope.

(** ** Machine integers and addresses *)

Definition address := Z.

Definition MAX_UINT256 : Z := 2 ^ 256 - 1.
Definition MAX_ADDRESS : Z := 2 ^ 160 - 1.

Definition is_uint256 (x : Z) : Prop := 0 <= x <= MAX_UINT256.
Definition is_address (x : Z) : Prop := 0 <= x <= MAX_ADDRESS.

(** [1 days] in Solidity's time units. *)
Definition ONE_DAY : Z := 86400.

(** Checked arithmetic of Solidity 0.8: [None] is [Panic(0x11)] (overflow or
    underflow) or [Panic(0x12)] (division by zero). *)
Definition add256 (a b : Z) : option Z :=
  if a + b <=? MAX_UINT256 then Some (a + b) else None.

Definition sub256 (a b : Z) : option Z :=
  if b <=? a then Some (a - b) else None.

Definition mul256 (a b : Z) : option Z :=
  if a * b <=? MAX_UINT256 then Some (a * b) else None.

Definition div256 (a b : Z) : option Z :=
  if b =? 0 then None else Some (a / b).

(** ** Storage *)

Record Challenge := mkChallenge {
  user : address;
  beneficiary : address;
  principal : Z;
  released : Z;
  penalized : Z;
  startTime : Z;
  durationDays : Z;
  dailySlice : Z;
  finalized : bool;
  dayUnlocked : gmap Z bool
}.

(** The value every slot of [challenges] holds before it is written. *)
Definition zeroChallenge : Challenge :=
  mkChallenge 0 0 0 0 0 0 0 0 false ∅.

Definition set_user (v : address) (c : Challenge) : Challenge :=
  mkChallenge v (beneficiary c) (principal c) (released c) (penalized c)
    (startTime c) (durationDays c) (dailySlice c) (finalized c) (dayUnlocked c).
Definition set_beneficiary (v : address) (c : Challenge) : Challenge :=
  mkChallenge (user c) v (principal c) (released c) (penalized c)
    (startTime c) (durationDays c) (dailySlice c) (finalized c) (dayUnlocked c).
Definition set_principal (v : Z) (c : Challenge) : Challenge :=
  mkChallenge (user c) (beneficiary c) v (released c) (penalized c)
    (startTime c) (durationDays c) (dailySlice c) (finalized c) (dayUnlocked c).
Definition set_released (v : Z) (c : Challenge) : Challenge :=
  mkChallenge (user c) (beneficiary c) (principal c) v (penalized c)
    (startTime c) (durationDays c) (dailySlice c) (finalized c) (dayUnlocked c).
Definition set_penalized (v : Z) (c : Challenge) : Challenge :=
  mkChallenge (user c) (beneficiary c) (principal c) (released c) v
    (startTime c) (durationDays c) (dailySlice c) (finalized c) (dayUnlocked c).
Definition set_startTime (v : Z) (c : Challenge) : Challenge :=
  mkChallenge (user c) (beneficiary c) (principal c) (released c) (penalized c)
    v (durationDays c) (dailySlice c) (finalized c) (dayUnlocked c).
Definition set_durationDays (v : Z) (c : Challenge) : Challenge :=
  mkChallenge (user c) (beneficiary c) (principal c) (released c) (penalized c)
    (startTime c) v (dailySlice c) (finalized c) (dayUnlocked c).
Definition set_dailySlice (v : Z) (c : Challenge) : Challenge :=
  mkChallenge (user c) (beneficiary c) (principal c) (released c) (penalized c)
    (startTime c) (durationDays c) v (finalized c) (dayUnlocked c).
Definition set_finalized (v : bool) (c : Challenge) : Challenge :=
  mkChallenge (user c) (beneficiary c) (principal c) (released c) (penalized c)
    (startTime c) (durationDays c) (dailySlice c) v (dayUnlocked c).
Definition set_dayUnlocked (i : Z) (v : bool) (c : Challenge) : Challenge :=
  mkChallenge (user c) (beneficiary c) (principal c) (released c) (penalized c)
    (startTime c) (durationDays c) (dailySlice c) (finalized c)
    (<[i := v]> (dayUnlocked c)).

(** [c.dayUnlocked[i]]: an absent key reads as [false]. *)
Definition dayUnlockedAt (c : Challenge) (i : Z) : bool :=
  default false (dayUnlocked c !! i).

Inductive Event :=
| ChallengeCreated (challengeId : Z) (owner beneficiary : address)
    (amount startTime durationDays : Z)
| DayAttested (challengeId dayIndex amountUnlocked : Z)
| Claimed (challengeId : Z) (owner : address) (amount : Z)
| Finalized (challengeId penaltyToBeneficiary : Z).

(** The contract's storage together with the log of emitted events (the log
    is discarded with the storage changes when a transaction reverts). *)
Record Vault := mkVault {
  USDC : address;
  verifier : address;
  owner : address;
  nextChallengeId : Z;
  challenges : gmap Z Challenge;
  events : list Event
}.

(** [challenges[id]] *)
Definition challengeAt (id : Z) (s : Vault) : Challenge :=
  default zeroChallenge (challenges s !! id).

Definition set_verifier (v : address) (s : Vault) : Vault :=
  mkVault (USDC s) v (owner s) (nextChallengeId s) (challenges s) (events s).
Definition set_nextChallengeId (n : Z) (s : Vault) : Vault :=
  mkVault (USDC s) (verifier s) (owner s) n (challenges s) (events s).
Definition update_challenge (id : Z) (f : Challenge -> Challenge) (s : Vault) : Vault :=
  mkVault (USDC s) (verifier s) (owner s) (nextChallengeId s)
    (<[id := f (challengeAt id s)]> (challenges s)) (events s).
Definition add_event (e : Event) (s : Vault) : Vault :=
  mkVault (USDC s) (verifier s) (owner s) (nextChallengeId s) (challenges s)
    (events s ++ [e]).

(** ** Errors, external calls and the resumption monad *)

(** The revert reasons of the contract, by their strings, plus the arithmetic
    panic of checked arithmetic and a revert raised inside the token. *)
Inductive Error :=
| USDC_ZERO | NOT_OWNER | NOT_VERIFIER
| BENEFICIARY_ZERO | AMOUNT_ZERO | DURATION_ZERO | START_PAST
| TRANSFER_FROM_FAIL
| FINALIZED | NOT_FOUND | BAD_DAY | ALREADY_UNLOCKED | DAY_NOT_STARTED
| NOT_USER | NOTHING_TO_CLAIM | TRANSFER_FAIL
| NOT_ENDED | BENEFICIARY_XFER_FAIL
| PANIC_ARITHMETIC
| CALLEE_REVERTED.

Global Instance Error_eq_dec : EqDecision Error.
Proof. solve_decision. Defined.

(** The calls the contract makes to the token at address [token]. *)
Inductive ExtCall :=
| Call_transferFrom (token from to : address) (amount : Z)
| Call_transfer (token to : address) (amount : Z).

(** The run of a function body from a given storage: it completes with a
    value and a storage, reverts, or stops at an external call, showing the
    storage at the moment of the call and how it resumes on the call's
    boolean result. *)
Inductive Run (A : Type) :=
| Done (a : A) (s : Vault)
| Revert (e : Error)
| External (c : ExtCall) (s : Vault) (k : bool -> Vault -> Run A).
Arguments Done {A} a s.
Arguments Revert {A} e.
Arguments External {A} c s k.

Fixpoint bindR {A B} (r : Run A) (f : A -> Vault -> Run B) : Run B :=
  match r with
  | Done a s => f a s
  | Revert e => Revert e
  | External c s k => External c s (fun b s' => bindR (k b s') f)
  end.

Definition M (A : Type) : Type := Vault -> Run A.

Global Instance M_ret : MRet M := fun A a s => Done a s.
Global Instance M_bind : MBind M := fun A B f m s => bindR (m s) f.

Definition revert {A} (e : Error) : M A := fun _ => Revert e.
Definition require (b : bool) (e : Error) : M unit :=
  if b then mret tt else revert e.
Definition read {A} (f : Vault -> A) : M A := fun s => Done (f s) s.
Definition write (f : Vault -> Vault) : M unit := fun s => Done tt (f s).
Definition checked (o : option Z) : M Z :=
  match o with Some v => mret v | None => revert PANIC_ARITHMETIC end.
Definition call (c : ExtCall) : M bool :=
  fun s => External c s (fun b s' => Done b s').
Definition emit (e : Event) : M unit := write (add_event e).

(** [c.f] and [c.f = v] for [Challenge storage c = challenges[id]]. *)
Definition load {A} (id : Z) (f : Challenge -> A) : M A :=
  read (fun s => f (challengeAt id s)).
Definition store (id : Z) (f : Challenge -> Challenge) : M unit :=
  write (update_challenge id f).

(** What a transaction knows about its caller and its block. *)
Record Env := mkEnv {
  msg_sender : address;
  block_timestamp : Z;
  this : address
}.

(** ** The contract *)

Definition constructor (msg_sender usdc initialVerifier : address) : Error + Vault :=
  if usdc =? 0 then inl USDC_ZERO
  else inr (mkVault usdc initialVerifier msg_sender 0 ∅ []).

Definition onlyOwner (env : Env) : M unit :=
  o ← read owner; require (msg_sender env =? o) NOT_OWNER.

Definition onlyVerifier (env : Env) : M unit :=
  v ← read verifier; require (msg_sender env =? v) NOT_VERIFIER.

Definition setVerifier (env : Env) (v : address) : M unit :=
  onlyOwner env;;
  write (set_verifier v).

Definition createChallenge (env : Env)
    (beneficiary : address) (amount startTime durationDays : Z) : M Z :=
  require (negb (beneficiary =? 0)) BENEFICIARY_ZERO;;
  require (amount >? 0) AMOUNT_ZERO;;
  require (durationDays >? 0) DURATION_ZERO;;
  require (startTime >=? block_timestamp env) START_PAST;;
  n ← read nextChallengeId;
  id ← checked (add256 n 1);
  write (set_nextChallengeId id);;
  store id (set_user (msg_sender env));;
  store id (set_beneficiary beneficiary);;
  store id (set_principal amount);;
  store id (set_released 0);;
  store id (set_penalized 0);;
  store id (set_startTime startTime);;
  store id (set_durationDays durationDays);;
  slice ← checked (div256 amount durationDays);
  store id (set_dailySlice slice);;
  store id (set_finalized false);;
  usdc ← read USDC;
  ok ← call (Call_transferFrom usdc (msg_sender env) (this env) amount);
  require ok TRANSFER_FROM_FAIL;;
  emit (ChallengeCreated id (msg_sender env) beneficiary amount startTime durationDays);;
  mret id.

Definition attestCompletion (env : Env) (id dayIndex : Z) : M unit :=
  onlyVerifier env;;
  fin ← load id finalized;
  require (negb fin) FINALIZED;;
  u ← load id user;
  require (negb (u =? 0)) NOT_FOUND;;
  d ← load id durationDays;
  require (dayIndex <? d) BAD_DAY;;
  unlocked ← load id (fun c => dayUnlockedAt c dayIndex);
  require (negb unlocked) ALREADY_UNLOCKED;;
  st ← load id startTime;
  offset ← checked (mul256 dayIndex ONE_DAY);
  due ← checked (add256 st offset);
  require (block_timestamp env >=? due) DAY_NOT_STARTED;;
  store id (set_dayUnlocked dayIndex true);;
  r ← load id released;
  slice ← load id dailySlice;
  r' ← checked (add256 r slice);
  store id (set_released r');;
  slice' ← load id dailySlice;
  emit (DayAttested id dayIndex slice').

Definition claimUnlocked (env : Env) (id : Z) : M unit :=
  u ← load id user;
  require (u =? msg_sender env) NOT_USER;;
  claimable ← load id released;
  require (claimable >? 0) NOTHING_TO_CLAIM;;
  store id (set_released 0);;
  usdc ← read USDC;
  ok ← call (Call_transfer usdc (msg_sender env) claimable);
  require ok TRANSFER_FAIL;;
  emit (Claimed id (msg_sender env) claimable).

(** The loop of [_sumUnlocked]: [n] iterations remain, [i] is the loop
    counter. It starts with [n = durationDays] and [i = 0], so the test
    [i < d] holds in each of the [n] iterations and fails after them, and
    [i++] stays below [d]. *)
Fixpoint sumUnlocked_loop (c : Challenge) (n : nat) (i total : Z) : option Z :=
  match n with
  | O => Some total
  | S n' =>
      total' ← (if dayUnlockedAt c i then add256 total (dailySlice c) else Some total);
      sumUnlocked_loop c n' (i + 1) total'
  end.

Definition _sumUnlocked (c : Challenge) : option Z :=
  sumUnlocked_loop c (Z.to_nat (durationDays c)) 0 0.

Definition finalize (env : Env) (id : Z) : M unit :=
  fin ← load id finalized;
  require (negb fin) FINALIZED;;
  u ← load id user;
  require (negb (u =? 0)) NOT_FOUND;;
  st ← load id startTime;
  d ← load id durationDays;
  len ← checked (mul256 d ONE_DAY);
  ending ← checked (add256 st len);
  require (block_timestamp env >=? ending) NOT_ENDED;;
  c ← load id (fun c => c);
  unlockedTotal ← checked (_sumUnlocked c);
  p ← load id principal;
  remainder ← checked (sub256 p unlockedTotal);
  pen ← load id penalized;
  pen' ← checked (add256 pen remainder);
  store id (set_penalized pen');;
  store id (set_finalized true);;
  (if remainder >? 0 then
     usdc ← read USDC;
     b ← load id beneficiary;
     ok ← call (Call_transfer usdc b remainder);
     require ok BENEFICIARY_XFER_FAIL
   else mret tt);;
  emit (Finalized id remainder).

(** Views *)
Definition getChallenge (id : Z) (s : Vault)
  : address * address * Z * Z * Z * Z * Z * Z * bool :=
  let c := challengeAt id s in
  (user c, beneficiary c, principal c, released c, penalized c,
   startTime c, durationDays c, dailySlice c, finalized c).

Definition isDayUnlocked (id dayIndex : Z) (s : Vault) : bool :=
  dayUnlockedAt (challengeAt id s) dayIndex.

(** ** The token and the execution of transactions *)

(** The token interface the contract uses. The implementation is not part of
    the contract: it is a parameter. A call is made by [caller] on the token's
    state; it returns a boolean and a new token state, or reverts ([None]).
    The token does not call back into the vault. *)
Class IERC20 (T : Type) := {
  transferFrom : address -> address -> address -> Z -> T -> option (bool * T);
  transfer : address -> address -> Z -> T -> option (bool * T)
}.

Section Execution.
Context {T : Type} `{Token : IERC20 T}.

(** The vault at address [self] performs the call [c]. *)
Definition perform (self : address) (c : ExtCall) (t : T) : option (bool * T) :=
  match c with
  | Call_transferFrom _ from to amount => transferFrom self from to amount t
  | Call_transfer _ to amount => transfer self to amount t
  end.

(** Runs a function body to its end: a revert of the body or of the token
    aborts the run. *)
Fixpoint exec {A} (self : address) (r : Run A) (t : T) : Error + (A * Vault * T) :=
  match r with
  | Done a s => inr (a, s, t)
  | Revert e => inl e
  | External c s k =>
      match perform self c t with
      | Some (b, t') => exec self (k b s) t'
      | None => inl CALLEE_REVERTED
      end
  end.

(** A transaction: on success the new storage and token state are kept, on
    a revert both are as before the transaction. *)
Definition transact {A} (env : Env) (m : M A) (s : Vault) (t : T)
  : (Error + A) * Vault * T :=
  match exec (this env) (m s) t with
  | inr (a, s', t') => (inr a, s', t')
  | inl e => (inl e, s, t)
  end.

Definition outcome {A} (x : (Error + A) * Vault * T) : Error + A := x.1.1.
Definition vault_after {A} (x : (Error + A) * Vault * T) : Vault := x.1.2.
Definition token_after {A} (x : (Error + A) * Vault * T) : T := x.2.

End Execution.

(** The external functions of the contract as transactions. *)
Inductive Tx :=
| Tx_setVerifier (v : address)
| Tx_createChallenge (beneficiary : address) (amount startTime durationDays : Z)
| Tx_attestCompletion (id dayIndex : Z)
| Tx_claimUnlocked (id : Z)
| Tx_finalize (id : Z).

Definition runTx (env : Env) (tx : Tx) : M unit :=
  match tx with
  | Tx_setVerifier v => setVerifier env v
  | Tx_createChallenge b a st d => createChallenge env b a st d;; mret tt
  | Tx_attestCompletion id day => attestCompletion env id day
  | Tx_claimUnlocked id => claimUnlocked env id
  | Tx_finalize id => finalize env id
  end.

(** Arguments as the ABI decoder delivers them. *)
Definition valid_env (env : Env) : Prop :=
  is_address (msg_sender env) /\ is_uint256 (block_timestamp env) /\ is_address (this env).

Definition valid_tx (tx : Tx) : Prop :=
  match tx with
  | Tx_setVerifier v => is_address v
  | Tx_createChallenge b a st d =>
      is_address b /\ is_uint256 a /\ is_uint256 st /\ is_uint256 d
  | Tx_attestCompletion id day => is_uint256 id /\ is_uint256 day
  | Tx_claimUnlocked id => is_uint256 id
  | Tx_finalize id => is_uint256 id
  end.

Section Reachability.
Context {T : Type} `{Token : IERC20 T}.

(** The states of the deployed contract: the constructor's, and the ones
    any transaction leads to from there, by any caller, at any time,
    against any state of the token. *)
Inductive reachable : Vault -> Prop :=
| reachable_deploy deployer usdc initialVerifier s :
    is_address deployer -> is_address usdc -> is_address initialVerifier ->
    constructor deployer usdc initialVerifier = inr s ->
    reachable s
| reachable_tx env tx s (t : T) :
    reachable s -> valid_env env -> valid_tx tx ->
    reachable (vault_after (transact env (runTx env tx) s t)).

(** [evolves s s']: the storage [s'] comes after [s], any number of
    transactions later. *)
Inductive evolves : Vault -> Vault -> Prop :=
| evolves_refl s : evolves s s
| evolves_tx env tx s s' (t : T) :
    evolves s s' -> valid_env env -> valid_tx tx ->
    evolves s (vault_after (transact env (runTx env tx) s' t)).

(** Plays a list of transactions, one after the other, each against the
    token state the previous one left. *)
Definition play (txs : list (Env * Tx)) (st : Vault * T) : Vault * T :=
  foldl (fun st p =>
           let r := transact p.1 (runTx p.1 p.2) st.1 st.2 in
           (vault_after r, token_after r))
        st txs.

End Reachability.

(** ** Test doubles for the token *)

(** A token that keeps balances: a transfer that the sender's balance covers
    moves the amount and returns [true], any other returns [false]. *)
Abbreviation Balances := (gmap Z Z).

Definition balanceOf (a : address) (t : Balances) : Z := default 0 (t !! a).

Definition move (from to : address) (amount : Z) (t : Balances) : option (bool * Balances) :=
  if amount <=? balanceOf from t then
    let t1 := <[from := balanceOf from t - amount]> t in
    Some (true, <[to := balanceOf to t1 + amount]> t1)
  else Some (false, t).

Definition LedgerToken : IERC20 Balances :=
  {| transferFrom := fun _ from to amount t => move from to amount t;
     transfer := fun caller to amount t => move caller to amount t |}.

(** A token whose transfers all return [false]. *)
Definition RefusingToken : IERC20 unit :=
  {| transferFrom := fun _ _ _ _ t => Some (false, t);
     transfer := fun _ _ _ t => Some (false, t) |}.

(** A token whose transfers all revert. *)
Definition RevertingToken : IERC20 unit :=
  {| transferFrom := fun _ _ _ _ _ => None;
     transfer := fun _ _ _ _ => None |}.

(** ** Vocabulary of the properties *)

(** The days attested so far: the indices [dayUnlocked] maps to [true]. *)
Definition unlockedDays (c : Challenge) : gset Z :=
  dom (filter (fun p => p.2 = true) (dayUnlocked c)).

(** The sum of [dailySlice] over the unlocked days. *)
Definition unlockedSlices (c : Challenge) : Z :=
  set_fold (fun _ acc => acc + dailySlice c) 0 (unlockedDays c).

(** What the log records as paid to the user of challenge [id]: the amounts
    of its [Claimed] events. *)
Fixpoint paidToOwner (id : Z) (log : list Event) : Z :=
  match log with
  | [] => 0
  | Claimed id' _ amount :: log' =>
      (if id' =? id then amount else 0) + paidToOwner id log'
  | _ :: log' => paidToOwner id log'
  end.

(** The unlocked days that lie in [i, i + n). *)
Definition daysWithin (c : Challenge) (i : Z) (n : nat) : gset Z :=
  filter (fun k => i <= k < i + Z.of_nat n) (unlockedDays c).

(** The accounting of one challenge against the log. *)
Record challenge_ok (id : Z) (c : Challenge) (log : list Event) : Prop := {
  ok_principal : 0 < principal c <= MAX_UINT256;
  ok_duration : 0 < durationDays c <= MAX_UINT256;
  ok_slice : dailySlice c = principal c / durationDays c;
  ok_days : forall i, i ∈ unlockedDays c -> 0 <= i < durationDays c;
  ok_released : 0 <= released c;
  ok_paid : 0 <= paidToOwner id log;
  ok_account :
    paidToOwner id log + released c = dailySlice c * Z.of_nat (size (unlockedDays c));
  ok_penalized :
    penalized c =
    if finalized c
    then principal c - dailySlice c * Z.of_nat (size (unlockedDays c))
    else 0;
  ok_start : 0 <= startTime c <= MAX_UINT256
}.

(** The invariant of the storage: identifiers are handed out in order, every
    stored challenge keeps its accounts, and nothing was paid for a slot
    that was never written. *)
Record vault_ok (s : Vault) : Prop := {
  ok_next : 0 <= nextChallengeId s <= MAX_UINT256;
  ok_ids : forall id c, challenges s !! id = Some c -> 1 <= id <= nextChallengeId s;
  ok_challenges :
    forall id c, challenges s !! id = Some c -> challenge_ok id c (events s);
  ok_unused : forall id, challenges s !! id = None -> paidToOwner id (events s) = 0
}.

(** The storage after a successful [attestCompletion], [claimUnlocked] and
    [finalize]. *)
Definition attested (id dayIndex r' : Z) (s : Vault) : Vault :=
  add_event (DayAttested id dayIndex (dailySlice (challengeAt id s)))
    (update_challenge id (set_released r')
       (update_challenge id (set_dayUnlocked dayIndex true) s)).

Definition zeroed (id : Z) (s : Vault) : Vault :=
  update_challenge id (set_released 0) s.

Definition claimed (id : Z) (to : address) (amount : Z) (s : Vault) : Vault :=
  add_event (Claimed id to amount) (zeroed id s).

Definition settled (id pen' : Z) (s : Vault) : Vault :=
  update_challenge id (set_finalized true)
    (update_challenge id (set_penalized pen') s).

Definition finalized_with (id remainder pen' : Z) (s : Vault) : Vault :=
  add_event (Finalized id remainder) (settled id pen' s).

(** The challenge record [createChallenge] writes into slot [id]. *)
Definition created_record (sender b : address) (amount st d slice : Z) (old : Challenge)
  : Challenge :=
  mkChallenge sender b amount 0 0 st d slice false (dayUnlocked old).

Definition created (env : Env) (id : Z) (b : address) (amount st d slice : Z) (s : Vault)
  : Vault :=
  mkVault (USDC s) (verifier s) (owner s) id
    (<[id := created_record (msg_sender env) b amount st d slice (challengeAt id s)]>
       (challenges s))
    (events s ++ [ChallengeCreated id (msg_sender env) b amount st d]).

(** Failures of the token side of an operation. *)
Definition transfer_error (e : Error) : bool :=
  match e with
  | TRANSFER_FROM_FAIL | TRANSFER_FAIL | BENEFICIARY_XFER_FAIL | CALLEE_REVERTED => true
  | _ => false
  end.

(** Failures of [createChallenge]'s argument checks. *)
Definition validation_error (e : Error) : bool :=
  match e with
  | BENEFICIARY_ZERO | AMOUNT_ZERO | DURATION_ZERO | START_PAST => true
  | _ => false
  end.

(** What a stored challenge keeps for ever: the terms fixed at its creation,
    the [finalized] flag once set, and every unlocked day. *)
Record challenge_kept (c c' : Challenge) : Prop := {
  kept_user : user c' = user c;
  kept_beneficiary : beneficiary c' = beneficiary c;
  kept_principal : principal c' = principal c;
  kept_startTime : startTime c' = startTime c;
  kept_durationDays : durationDays c' = durationDays c;
  kept_dailySlice : dailySlice c' = dailySlice c;
  kept_finalized : finalized c = true -> finalized c' = true;
  kept_days : forall i, dayUnlockedAt c i = true -> dayUnlockedAt c' i = true
}.

(** ** A worked scenario

    A deployment with administrator [admin], token [usdc] and attester
    [attester]; the vault lives at [vault]. [alice] holds 1000 units of the
    token and locks 100 of them for 7 days from time 1000, with beneficiary
    [bob]. *)
Module Scenario.
Definition admin : address := 1.
Definition usdc : address := 900.
Definition attester : address := 77.
Definition vault : address := 500.
Definition alice : address := 5.
Definition bob : address := 6.

Definition at_time (sender : address) (now : Z) : Env := mkEnv sender now vault.
Definition day (i : Z) : Z := 1000 + i * ONE_DAY.

Definition deployed : Vault := mkVault usdc attester admin 0 ∅ [].
Definition funded : Balances := {[ alice := 1000 ]}.

Definition run := play (Token := LedgerToken).

Definition create100 : list (Env * Tx) :=
  [ (at_time alice 1000, Tx_createChallenge bob 100 1000 7) ].
Definition attest0to3 : list (Env * Tx) :=
  [ (at_time attester (day 3), Tx_attestCompletion 1 0);
    (at_time attester (day 3), Tx_attestCompletion 1 1);
    (at_time attester (day 3), Tx_attestCompletion 1 2);
    (at_time attester (day 3), Tx_attestCompletion 1 3) ].
Definition claim : list (Env * Tx) :=
  [ (at_time alice (day 3), Tx_claimUnlocked 1) ].
Definition attest4 : list (Env * Tx) :=
  [ (at_time attester (day 4), Tx_attestCompletion 1 4) ].
Definition finish : list (Env * Tx) :=
  [ (at_time bob (day 7), Tx_finalize 1) ].

Definition created100 : Vault * Balances := run create100 (deployed, funded).
Definition attested0to3 : Vault * Balances := run attest0to3 created100.
Definition claimed56 : Vault * Balances := run claim attested0to3.
Definition attested4 : Vault * Balances := run attest4 claimed56.
Definition finished : Vault * Balances := run finish attested4.

(** A challenge of 3 units over 7 days: the daily slice is 0. *)
Definition create3 : list (Env * Tx) :=
  [ (at_time alice 1000, Tx_createChallenge bob 3 1000 7) ].
Definition created3 : Vault * Balances := run create3 (deployed, funded).

(** A challenge that starts at the last representable instant. *)
Definition createLate : list (Env * Tx) :=
  [ (at_time alice 1000, Tx_createChallenge bob 100 MAX_UINT256 2) ].
Definition createdLate : Vault * Balances := run createLate (deployed, funded).
End Scenario.

(** A run that stops nowhere at a call to the token. *)
Definition makes_no_call {A} (r : Run A) : Prop :=
  match r with External _ _ _ => False | _ => True end.

(** Every identifier handed out so far has its record. *)
Definition ids_dense (s : Vault) : Prop :=
  forall id, 1 <= id <= nextChallengeId s -> is_Some (challenges s !! id).

(** The challenge slot a transaction may write: the one it names, or the
    next identifier for a creation. *)
Definition tx_target (s : Vault) (tx : Tx) : option Z :=
  match tx with
  | Tx_setVerifier _ => None
  | Tx_createChallenge _ _ _ _ => Some (nextChallengeId s + 1)
  | Tx_attestCompletion id _ => Some id
  | Tx_claimUnlocked id => Some id
  | Tx_finalize id => Some id
  end.

(** * Properties *)

(** ** Storage reads after writes *)

Lemma challengeAt_update_eq id f s :
  challengeAt id (update_challenge id f s) = f (challengeAt id s).
Proof. unfold challengeAt, update_challenge; simpl. by rewrite lookup_insert_eq. Qed.

Lemma challengeAt_update_ne id id' f s :
  id <> id' -> challengeAt id' (update_challenge id f s) = challengeAt id' s.
Proof. intros. unfold challengeAt, update_challenge; simpl. by rewrite lookup_insert_ne. Qed.

Lemma update_challenge_twice id f g s :
  update_challenge id f (update_challenge id g s) =
  update_challenge id (fun c => f (g c)) s.
Proof.
  unfold update_challenge at 1 3. rewrite challengeAt_update_eq. simpl.
  by rewrite insert_insert_eq.
Qed.

Lemma challengeAt_add_event id e s :
  challengeAt id (add_event e s) = challengeAt id s.
Proof. reflexivity. Qed.

Lemma challengeAt_Some id s c :
  challenges s !! id = Some c -> challengeAt id s = c.
Proof. unfold challengeAt. by intros ->. Qed.

Lemma challengeAt_None id s :
  challenges s !! id = None -> challengeAt id s = zeroChallenge.
Proof. unfold challengeAt. by intros ->. Qed.

(** ** One step of a function body *)

Section MonadSteps.
Context {A B : Type}.
Implicit Types (k : M B) (s : Vault).

Lemma bind_require b e k s :
  (require b e;; k) s = if b then k s else Revert e.
Proof. by destruct b. Qed.

Lemma bind_read (f : Vault -> A) (g : A -> M B) s :
  (x ← read f; g x) s = g (f s) s.
Proof. reflexivity. Qed.

Lemma bind_write (f : Vault -> Vault) k s :
  (write f;; k) s = k (f s).
Proof. reflexivity. Qed.

Lemma bind_load id (f : Challenge -> A) (g : A -> M B) s :
  (x ← load id f; g x) s = g (f (challengeAt id s)) s.
Proof. reflexivity. Qed.

Lemma bind_store id (f : Challenge -> Challenge) k s :
  (store id f;; k) s = k (update_challenge id f s).
Proof. reflexivity. Qed.

Lemma bind_emit ev k s :
  (emit ev;; k) s = k (add_event ev s).
Proof. reflexivity. Qed.

Lemma bind_checked o (g : Z -> M B) s :
  (x ← checked o; g x) s =
  match o with Some v => g v s | None => Revert PANIC_ARITHMETIC end.
Proof. by destruct o. Qed.

Lemma bind_call c (g : bool -> M B) s :
  (ok ← call c; g ok) s = External c s g.
Proof. reflexivity. Qed.

Lemma bind_onlyVerifier env k s :
  (onlyVerifier env;; k) s =
  if msg_sender env =? verifier s then k s else Revert NOT_VERIFIER.
Proof.
  unfold onlyVerifier, mbind, M_bind, read. simpl.
  by destruct (msg_sender env =? verifier s).
Qed.

Lemma bind_onlyOwner env k s :
  (onlyOwner env;; k) s =
  if msg_sender env =? owner s then k s else Revert NOT_OWNER.
Proof.
  unfold onlyOwner, mbind, M_bind, read. simpl.
  by destruct (msg_sender env =? owner s).
Qed.
End MonadSteps.

Ltac mstep :=
  repeat (first [ rewrite bind_require | rewrite bind_read | rewrite bind_write
                | rewrite bind_load | rewrite bind_store | rewrite bind_emit
                | rewrite bind_checked | rewrite bind_call
                | rewrite bind_onlyVerifier | rewrite bind_onlyOwner ];
          cbv beta).

(** ** The functions in closed form *)

Section Closed.
Context {T : Type} `{Token : IERC20 T}.
Implicit Types (s : Vault) (t : T) (env : Env).

Lemma exec_bindR {A B} self (r : Run A) (f : A -> Vault -> Run B) t :
  exec self (bindR r f) t =
  match exec self r t with
  | inl e => inl e
  | inr (a, s, t') => exec self (f a s) t'
  end.
Proof.
  revert t. induction r as [a s|e|c s k IH]; intros t; simpl; try done.
  destruct (perform self c t) as [[b t']|]; auto.
Qed.

Lemma exec_setVerifier self env v s t :
  exec self (setVerifier env v s) t =
  if msg_sender env =? owner s then inr (tt, set_verifier v s, t)
  else inl NOT_OWNER.
Proof.
  unfold setVerifier. mstep. by destruct (msg_sender env =? owner s).
Qed.

Lemma exec_attestCompletion self env id day s t :
  exec self (attestCompletion env id day s) t =
  let c := challengeAt id s in
  if negb (msg_sender env =? verifier s) then inl NOT_VERIFIER
  else if finalized c then inl FINALIZED
  else if user c =? 0 then inl NOT_FOUND
  else if negb (day <? durationDays c) then inl BAD_DAY
  else if dayUnlockedAt c day then inl ALREADY_UNLOCKED
  else match mul256 day ONE_DAY with
  | None => inl PANIC_ARITHMETIC
  | Some offset =>
    match add256 (startTime c) offset with
    | None => inl PANIC_ARITHMETIC
    | Some due =>
      if negb (block_timestamp env >=? due) then inl DAY_NOT_STARTED
      else match add256 (released c) (dailySlice c) with
      | None => inl PANIC_ARITHMETIC
      | Some r' => inr (tt, attested id day r' s, t)
      end
    end
  end.
Proof.
  unfold attestCompletion. mstep. cbv zeta.
  destruct (msg_sender env =? verifier s); [|done]. simpl negb. cbv iota.
  destruct (finalized (challengeAt id s)); [done|]. simpl negb. cbv iota.
  destruct (user (challengeAt id s) =? 0); [done|]. simpl negb. cbv iota.
  destruct (day <? durationDays (challengeAt id s)); [|done]. simpl negb. cbv iota.
  destruct (dayUnlockedAt (challengeAt id s) day); [done|]. simpl negb. cbv iota.
  destruct (mul256 day ONE_DAY) as [offset|]; [|done]. mstep.
  destruct (add256 _ offset) as [due|]; [|done]. mstep.
  destruct (block_timestamp env >=? due); [|done]. simpl negb. cbv iota. mstep.
  rewrite !challengeAt_update_eq. simpl.
  destruct (add256 _ _) as [r'|]; [|done]. mstep.
  rewrite !challengeAt_update_eq. reflexivity.
Qed.

Lemma exec_claimUnlocked self env id s t :
  exec self (claimUnlocked env id s) t =
  let c := challengeAt id s in
  if negb (user c =? msg_sender env) then inl NOT_USER
  else if negb (released c >? 0) then inl NOTHING_TO_CLAIM
  else match transfer self (msg_sender env) (released c) t with
  | None => inl CALLEE_REVERTED
  | Some (true, t') => inr (tt, claimed id (msg_sender env) (released c) s, t')
  | Some (false, _) => inl TRANSFER_FAIL
  end.
Proof.
  unfold claimUnlocked. mstep. cbv zeta.
  destruct (user (challengeAt id s) =? msg_sender env); [|done].
  destruct (released (challengeAt id s) >? 0); [|done].
  simpl. destruct (transfer _ _ _ _) as [[[] t']|]; done.
Qed.

Lemma exec_finalize self env id s t :
  exec self (finalize env id s) t =
  let c := challengeAt id s in
  if finalized c then inl FINALIZED
  else if user c =? 0 then inl NOT_FOUND
  else match mul256 (durationDays c) ONE_DAY with
  | None => inl PANIC_ARITHMETIC
  | Some len =>
    match add256 (startTime c) len with
    | None => inl PANIC_ARITHMETIC
    | Some ending =>
      if negb (block_timestamp env >=? ending) then inl NOT_ENDED
      else match _sumUnlocked c with
      | None => inl PANIC_ARITHMETIC
      | Some unlockedTotal =>
        match sub256 (principal c) unlockedTotal with
        | None => inl PANIC_ARITHMETIC
        | Some remainder =>
          match add256 (penalized c) remainder with
          | None => inl PANIC_ARITHMETIC
          | Some pen' =>
            if remainder >? 0 then
              match transfer self (beneficiary c) remainder t with
              | None => inl CALLEE_REVERTED
              | Some (true, t') => inr (tt, finalized_with id remainder pen' s, t')
              | Some (false, _) => inl BENEFICIARY_XFER_FAIL
              end
            else inr (tt, finalized_with id remainder pen' s, t)
          end
        end
      end
    end
  end.
Proof.
  unfold finalize. mstep. cbv zeta.
  destruct (finalized (challengeAt id s)); [done|]. simpl negb. cbv iota.
  destruct (user (challengeAt id s) =? 0); [done|]. simpl negb. cbv iota.
  destruct (mul256 _ ONE_DAY) as [len|]; [|done]. mstep.
  destruct (add256 _ len) as [ending|]; [|done]. mstep.
  destruct (block_timestamp env >=? ending); [|done]. simpl negb. cbv iota. mstep.
  destruct (_sumUnlocked _) as [unlockedTotal|]; [|done]. mstep.
  destruct (sub256 _ unlockedTotal) as [remainder|]; [|done]. mstep.
  destruct (add256 _ remainder) as [pen'|]; [|done]. mstep.
  unfold mbind, M_bind.
  destruct (remainder >? 0); [|done].
  simpl. rewrite !challengeAt_update_eq. simpl.
  destruct (transfer _ _ _ _) as [[[] t']|]; done.
Qed.

Lemma created_chain env id b amount st d slice s :
  update_challenge id (set_finalized false)
    (update_challenge id (set_dailySlice slice)
       (update_challenge id (set_durationDays d)
          (update_challenge id (set_startTime st)
             (update_challenge id (set_penalized 0)
                (update_challenge id (set_released 0)
                   (update_challenge id (set_principal amount)
                      (update_challenge id (set_beneficiary b)
                         (update_challenge id (set_user (msg_sender env))
                            (set_nextChallengeId id s))))))))) =
  mkVault (USDC s) (verifier s) (owner s) id
    (<[id := created_record (msg_sender env) b amount st d slice (challengeAt id s)]>
       (challenges s))
    (events s).
Proof. rewrite !update_challenge_twice. reflexivity. Qed.

Lemma exec_createChallenge self env b amount st d s t :
  exec self (createChallenge env b amount st d s) t =
  if b =? 0 then inl BENEFICIARY_ZERO
  else if negb (amount >? 0) then inl AMOUNT_ZERO
  else if negb (d >? 0) then inl DURATION_ZERO
  else if negb (st >=? block_timestamp env) then inl START_PAST
  else match add256 (nextChallengeId s) 1 with
  | None => inl PANIC_ARITHMETIC
  | Some id =>
    match div256 amount d with
    | None => inl PANIC_ARITHMETIC
    | Some slice =>
      match transferFrom self (msg_sender env) (this env) amount t with
      | None => inl CALLEE_REVERTED
      | Some (true, t') => inr (id, created env id b amount st d slice s, t')
      | Some (false, _) => inl TRANSFER_FROM_FAIL
      end
    end
  end.
Proof.
  unfold createChallenge. mstep.
  destruct (b =? 0); [done|]. simpl negb. cbv iota.
  destruct (amount >? 0); [|done]. simpl negb. cbv iota.
  destruct (d >? 0); [|done]. simpl negb. cbv iota.
  destruct (st >=? block_timestamp env); [|done]. simpl negb. cbv iota.
  destruct (add256 _ 1) as [id|]; [|done]. mstep.
  destruct (div256 amount d) as [slice|]; [|done]. mstep.
  rewrite created_chain. simpl.
  destruct (transferFrom _ _ _ _ _) as [[[] t']|]; done.
Qed.

(** The argument checks of [createChallenge] come first: a call that fails
    one of them is a revert with no storage write and no call before it. *)
Lemma createChallenge_checks env b amount st d s :
  b = 0 \/ amount <= 0 \/ d <= 0 \/ st < block_timestamp env ->
  createChallenge env b amount st d s =
  Revert (if b =? 0 then BENEFICIARY_ZERO
          else if negb (amount >? 0) then AMOUNT_ZERO
          else if negb (d >? 0) then DURATION_ZERO
          else START_PAST).
Proof.
  intros Hbad. unfold createChallenge. mstep.
  destruct (Z.eqb_spec b 0); [done|]. simpl negb. cbv iota.
  destruct (Z.gtb_spec amount 0); [|done]. simpl negb. cbv iota.
  destruct (Z.gtb_spec d 0); [|done]. simpl negb. cbv iota.
  destruct (Z.geb_spec st (block_timestamp env)); [lia|done].
Qed.

Lemma exec_runTx_create self env b amount st d s t :
  exec self (runTx env (Tx_createChallenge b amount st d) s) t =
  match exec self (createChallenge env b amount st d s) t with
  | inl e => inl e
  | inr (_, s', t') => inr (tt, s', t')
  end.
Proof.
  simpl. unfold mbind at 1, M_bind at 1. rewrite exec_bindR.
  destruct (exec self _ t) as [e|[[a s'] t']]; done.
Qed.
End Closed.

(** ** The set of unlocked days *)

Lemma elem_of_unlockedDays c i :
  i ∈ unlockedDays c <-> dayUnlockedAt c i = true.
Proof.
  unfold unlockedDays, dayUnlockedAt. rewrite elem_of_dom. split.
  - intros [b Hb]. apply map_lookup_filter_Some in Hb as [-> Hb]. exact Hb.
  - destruct (dayUnlocked c !! i) as [b|] eqn:Hi; simpl; [|done].
    intros ->. exists true. by apply map_lookup_filter_Some.
Qed.

Lemma dayUnlockedAt_set c i j :
  dayUnlockedAt (set_dayUnlocked i true c) j =
  if decide (i = j) then true else dayUnlockedAt c j.
Proof.
  unfold dayUnlockedAt, set_dayUnlocked; simpl.
  rewrite lookup_insert. by case_decide.
Qed.

Lemma unlockedDays_set c i :
  unlockedDays (set_dayUnlocked i true c) = {[i]} ∪ unlockedDays c.
Proof.
  apply set_eq; intros j.
  rewrite elem_of_union, elem_of_singleton, !elem_of_unlockedDays, dayUnlockedAt_set.
  case_decide as Hij; intuition congruence.
Qed.

Lemma size_unlockedDays_set c i :
  dayUnlockedAt c i = false ->
  Z.of_nat (size (unlockedDays (set_dayUnlocked i true c))) =
  Z.of_nat (size (unlockedDays c)) + 1.
Proof.
  intros Hi. rewrite unlockedDays_set, size_union, size_singleton; [lia|].
  apply disjoint_singleton_l. rewrite elem_of_unlockedDays. congruence.
Qed.

Lemma unlockedSlices_size c :
  unlockedSlices c = dailySlice c * Z.of_nat (size (unlockedDays c)).
Proof.
  unfold unlockedSlices.
  apply (set_fold_ind_L (fun r X => r = dailySlice c * Z.of_nat (size X))).
  - rewrite size_empty. lia.
  - intros x X r Hx ->. rewrite size_union, size_singleton by set_solver. lia.
Qed.

(** ** The loop of [_sumUnlocked] *)

Lemma daysWithin_0 c i : daysWithin c i 0 = ∅.
Proof.
  unfold daysWithin. apply set_eq; intros k.
  rewrite elem_of_filter. split; [lia|set_solver].
Qed.

Lemma daysWithin_S c i n :
  daysWithin c i (S n) =
  (if dayUnlockedAt c i then {[i]} else ∅) ∪ daysWithin c (i + 1) n.
Proof.
  unfold daysWithin. apply set_eq; intros k.
  rewrite elem_of_union, !elem_of_filter, elem_of_unlockedDays.
  destruct (dayUnlockedAt c i) eqn:Hi.
  - rewrite elem_of_singleton. split.
    + intros [Hk Hu]. destruct (decide (k = i)); [by left|right; split; [lia|done]].
    + intros [->|[Hk Hu]]; split; try lia; done.
  - rewrite elem_of_empty. split.
    + intros [Hk Hu]. right. split; [|done].
      assert (k <> i) by congruence. lia.
    + intros [[]|[Hk Hu]]. split; [lia|done].
Qed.

Lemma size_daysWithin_S c i n :
  Z.of_nat (size (daysWithin c i (S n))) =
  (if dayUnlockedAt c i then 1 else 0) + Z.of_nat (size (daysWithin c (i + 1) n)).
Proof.
  rewrite daysWithin_S, size_union.
  - destruct (dayUnlockedAt c i); [rewrite size_singleton|rewrite size_empty]; lia.
  - intros k Hk Hk'. unfold daysWithin in Hk'.
    apply elem_of_filter in Hk' as [Hr _].
    destruct (dayUnlockedAt c i); [|set_solver].
    apply elem_of_singleton in Hk. lia.
Qed.

Lemma size_daysWithin_le c i n : (size (daysWithin c i n) <= n)%nat.
Proof.
  revert i. induction n as [|n IH]; intros i.
  - by rewrite daysWithin_0, size_empty.
  - pose proof (size_daysWithin_S c i n) as HS. specialize (IH (i + 1)).
    destruct (dayUnlockedAt c i); lia.
Qed.

Lemma sumUnlocked_loop_total c n i total :
  0 <= dailySlice c ->
  total + dailySlice c * Z.of_nat (size (daysWithin c i n)) <= MAX_UINT256 ->
  sumUnlocked_loop c n i total =
  Some (total + dailySlice c * Z.of_nat (size (daysWithin c i n))).
Proof.
  intros Hslice. revert i total. induction n as [|n IH]; intros i total Hmax.
  - simpl. rewrite daysWithin_0, size_empty. f_equal. lia.
  - pose proof (size_daysWithin_S c i n) as HS.
    simpl. destruct (dayUnlockedAt c i).
    + unfold add256. destruct (Z.leb_spec (total + dailySlice c) MAX_UINT256) as [_|Hov].
      * simpl. rewrite IH; [f_equal|]; nia.
      * nia.
    + simpl. rewrite IH; [f_equal|]; nia.
Qed.

Lemma daysWithin_all c :
  0 <= durationDays c ->
  (forall i, i ∈ unlockedDays c -> 0 <= i < durationDays c) ->
  daysWithin c 0 (Z.to_nat (durationDays c)) = unlockedDays c.
Proof.
  intros Hd Hdays. unfold daysWithin. apply set_eq; intros k.
  rewrite elem_of_filter. split; [by intros []|]. intros Hk. split; [|done].
  specialize (Hdays k Hk). lia.
Qed.

Lemma size_unlockedDays_le c :
  0 <= durationDays c ->
  (forall i, i ∈ unlockedDays c -> 0 <= i < durationDays c) ->
  Z.of_nat (size (unlockedDays c)) <= durationDays c.
Proof.
  intros Hd Hdays. rewrite <- (daysWithin_all c Hd Hdays).
  pose proof (size_daysWithin_le c 0 (Z.to_nat (durationDays c))). lia.
Qed.

(** With one more day still locked, the unlocked ones are fewer than
    [durationDays]. *)
Lemma size_unlockedDays_lt c i :
  (forall k, k ∈ unlockedDays c -> 0 <= k < durationDays c) ->
  0 <= i < durationDays c -> dayUnlockedAt c i = false ->
  Z.of_nat (size (unlockedDays c)) + 1 <= durationDays c.
Proof.
  intros Hdays Hi Hlocked.
  rewrite <- (size_unlockedDays_set c i Hlocked).
  apply (size_unlockedDays_le (set_dayUnlocked i true c)); simpl; [lia|].
  intros k. rewrite unlockedDays_set, elem_of_union, elem_of_singleton.
  intros [->|Hk]; [lia|by apply Hdays].
Qed.

Lemma slice_times_duration p d :
  0 <= p -> 0 < d -> 0 <= p / d /\ p / d * d <= p /\ p - p / d * d = p mod d /\ p mod d < d.
Proof.
  intros Hp Hd. pose proof (Z.div_mod p d ltac:(lia)) as Hdm.
  pose proof (Z.mod_pos_bound p d Hd). pose proof (Z.div_pos p d Hp Hd). nia.
Qed.

(** The accounts of a challenge bound what is unlocked by the principal. *)
Lemma challenge_ok_unlocked_le id c log :
  challenge_ok id c log ->
  0 <= dailySlice c /\
  dailySlice c * Z.of_nat (size (unlockedDays c)) <= principal c.
Proof.
  intros [Hp Hd Hs Hdays _ _ _ _ _].
  destruct (slice_times_duration (principal c) (durationDays c)) as (H0 & Hle & _); [lia..|].
  rewrite Hs. split; [done|].
  pose proof (size_unlockedDays_le c ltac:(lia) Hdays). nia.
Qed.

Lemma sumUnlocked_ok id c log :
  challenge_ok id c log ->
  _sumUnlocked c = Some (dailySlice c * Z.of_nat (size (unlockedDays c))).
Proof.
  intros Hok. destruct (challenge_ok_unlocked_le _ _ _ Hok) as [H0 Hle].
  destruct Hok as [Hp Hd Hs Hdays _ _ _ _ _].
  unfold _sumUnlocked. rewrite sumUnlocked_loop_total; [|done|].
  - rewrite daysWithin_all by (done || lia). f_equal; lia.
  - rewrite daysWithin_all by (done || lia). lia.
Qed.

(** ** Checked arithmetic and boolean tests *)

Lemma add256_Some a b v : add256 a b = Some v <-> v = a + b /\ a + b <= MAX_UINT256.
Proof. unfold add256. destruct (Z.leb_spec (a + b) MAX_UINT256); split; intros; simplify_eq; intuition (congruence || lia). Qed.

Lemma add256_None a b : add256 a b = None <-> MAX_UINT256 < a + b.
Proof. unfold add256. destruct (Z.leb_spec (a + b) MAX_UINT256); split; intros; (congruence || lia). Qed.

Lemma mul256_Some a b v : mul256 a b = Some v <-> v = a * b /\ a * b <= MAX_UINT256.
Proof. unfold mul256. destruct (Z.leb_spec (a * b) MAX_UINT256); split; intros; simplify_eq; intuition (congruence || lia). Qed.

Lemma mul256_None a b : mul256 a b = None <-> MAX_UINT256 < a * b.
Proof. unfold mul256. destruct (Z.leb_spec (a * b) MAX_UINT256); split; intros; (congruence || lia). Qed.

Lemma sub256_Some a b v : sub256 a b = Some v <-> v = a - b /\ b <= a.
Proof. unfold sub256. destruct (Z.leb_spec b a); split; intros; simplify_eq; intuition (congruence || lia). Qed.

Lemma div256_Some a b v : div256 a b = Some v <-> v = a / b /\ b <> 0.
Proof. unfold div256. destruct (Z.eqb_spec b 0); split; intros; simplify_eq; intuition (congruence || lia). Qed.

(** Turns the outcome of the contract's tests into arithmetic facts. *)
Ltac tests :=
  repeat match goal with
  | H : negb _ = true |- _ => apply negb_true_iff in H
  | H : negb _ = false |- _ => apply negb_false_iff in H
  | H : (_ >? _) = _ |- _ => rewrite Z.gtb_ltb in H
  | H : (_ >=? _) = _ |- _ => rewrite Z.geb_leb in H
  | H : (_ =? _) = true |- _ => apply Z.eqb_eq in H
  | H : (_ =? _) = false |- _ => apply Z.eqb_neq in H
  | H : (_ <? _) = true |- _ => apply Z.ltb_lt in H
  | H : (_ <? _) = false |- _ => apply Z.ltb_ge in H
  | H : (_ <=? _) = true |- _ => apply Z.leb_le in H
  | H : (_ <=? _) = false |- _ => apply Z.leb_gt in H
  | H : add256 _ _ = Some _ |- _ => apply add256_Some in H as [? ?]
  | H : add256 _ _ = None |- _ => apply add256_None in H
  | H : mul256 _ _ = Some _ |- _ => apply mul256_Some in H as [? ?]
  | H : mul256 _ _ = None |- _ => apply mul256_None in H
  | H : sub256 _ _ = Some _ |- _ => apply sub256_Some in H as [? ?]
  | H : div256 _ _ = Some _ |- _ => apply div256_Some in H as [? ?]
  end.

(** ** Successful runs *)

Section Success.
Context {T : Type} `{Token : IERC20 T}.
Implicit Types (s : Vault) (t : T) (env : Env).

Lemma setVerifier_success self env v s t a s' t' :
  exec self (setVerifier env v s) t = inr (a, s', t') ->
  msg_sender env = owner s /\ s' = set_verifier v s /\ t' = t.
Proof.
  rewrite exec_setVerifier. intros H. case_match; [|done]. tests. by simplify_eq.
Qed.

Lemma createChallenge_success self env b amount st d s t id s' t' :
  exec self (createChallenge env b amount st d s) t = inr (id, s', t') ->
  b <> 0 /\ 0 < amount /\ 0 < d /\ block_timestamp env <= st /\
  id = nextChallengeId s + 1 /\ id <= MAX_UINT256 /\
  transferFrom self (msg_sender env) (this env) amount t = Some (true, t') /\
  s' = created env id b amount st d (amount / d) s.
Proof.
  rewrite exec_createChallenge. intros H.
  repeat (case_match; try discriminate). tests. simplify_eq. done.
Qed.

Lemma attestCompletion_success self env id day s t a s' t' :
  exec self (attestCompletion env id day s) t = inr (a, s', t') ->
  let c := challengeAt id s in
  msg_sender env = verifier s /\ finalized c = false /\ user c <> 0 /\
  day < durationDays c /\ dayUnlockedAt c day = false /\
  startTime c + day * ONE_DAY <= block_timestamp env /\
  released c + dailySlice c <= MAX_UINT256 /\
  s' = attested id day (released c + dailySlice c) s /\ t' = t.
Proof.
  rewrite exec_attestCompletion. cbv zeta. intros H.
  repeat (case_match; try discriminate). tests. simplify_eq.
  repeat split; (done || lia).
Qed.

Lemma claimUnlocked_success self env id s t a s' t' :
  exec self (claimUnlocked env id s) t = inr (a, s', t') ->
  let c := challengeAt id s in
  user c = msg_sender env /\ 0 < released c /\
  transfer self (msg_sender env) (released c) t = Some (true, t') /\
  s' = claimed id (msg_sender env) (released c) s.
Proof.
  rewrite exec_claimUnlocked. cbv zeta. intros H.
  repeat (case_match; try discriminate). tests. simplify_eq. done.
Qed.

Lemma finalize_success self env id s t a s' t' :
  exec self (finalize env id s) t = inr (a, s', t') ->
  let c := challengeAt id s in
  exists unlockedTotal,
    finalized c = false /\ user c <> 0 /\
    startTime c + durationDays c * ONE_DAY <= block_timestamp env /\
    _sumUnlocked c = Some unlockedTotal /\ unlockedTotal <= principal c /\
    penalized c + (principal c - unlockedTotal) <= MAX_UINT256 /\
    (if principal c - unlockedTotal >? 0
     then transfer self (beneficiary c) (principal c - unlockedTotal) t = Some (true, t')
     else t' = t) /\
    s' = finalized_with id (principal c - unlockedTotal)
           (penalized c + (principal c - unlockedTotal)) s.
Proof.
  rewrite exec_finalize. cbv zeta. intros H.
  destruct (finalized _) eqn:Hfin; [done|].
  destruct (user _ =? 0) eqn:Hu; [done|].
  destruct (mul256 _ _) as [len|] eqn:Hlen; [|done].
  destruct (add256 _ len) as [ending|] eqn:Hend; [|done].
  destruct (negb _) eqn:Hnow; [done|].
  destruct (_sumUnlocked _) as [u|] eqn:Hsum; [|done].
  destruct (sub256 _ u) as [r|] eqn:Hr; [|done].
  destruct (add256 _ r) as [pen'|] eqn:Hpen; [|done].
  tests. subst. exists u.
  destruct (_ - _ >? 0).
  - destruct (transfer _ _ _ _) as [[[] t2]|]; simplify_eq.
    repeat split; (done || lia).
  - simplify_eq. repeat split; (done || lia).
Qed.
End Success.

(** ** The invariant *)

Lemma paidToOwner_app id l1 l2 :
  paidToOwner id (l1 ++ l2) = paidToOwner id l1 + paidToOwner id l2.
Proof. induction l1 as [|[] l1 IH]; simpl; lia. Qed.

Lemma challenge_ok_log id c log log' :
  paidToOwner id log' = paidToOwner id log ->
  challenge_ok id c log -> challenge_ok id c log'.
Proof. intros Heq []. constructor; rewrite ?Heq; done. Qed.

Lemma stored_challenge id s :
  user (challengeAt id s) <> 0 \/ released (challengeAt id s) <> 0 ->
  challenges s !! id = Some (challengeAt id s).
Proof.
  unfold challengeAt. destruct (challenges s !! id); simpl; [done|]. intros [|]; done.
Qed.

Lemma unlockedDays_zero : unlockedDays zeroChallenge = ∅.
Proof. unfold unlockedDays. simpl. by rewrite map_filter_empty, dom_empty_L. Qed.

Lemma vault_ok_update s id f e :
  vault_ok s -> is_Some (challenges s !! id) ->
  challenge_ok id (f (challengeAt id s)) (events s ++ [e]) ->
  (forall id', id' <> id -> paidToOwner id' [e] = 0) ->
  vault_ok (add_event e (update_challenge id f s)).
Proof.
  intros [Hnext Hids Hcs Hunused] [c0 Hc0] Hc He. constructor; simpl.
  - done.
  - intros id' c'. rewrite lookup_insert. case_decide; [subst; eauto|eauto].
  - intros id' c'. rewrite lookup_insert. case_decide as Hid.
    + intros [= <-]. by subst.
    + intros Hc'. eapply challenge_ok_log; [|by eapply Hcs].
      rewrite paidToOwner_app, He by done. lia.
  - intros id'. rewrite lookup_insert. case_decide as Hid; [done|].
    intros Hnone. rewrite paidToOwner_app, He, Hunused by done. lia.
Qed.

Lemma vault_ok_constructor deployer usdc initialVerifier s :
  constructor deployer usdc initialVerifier = inr s -> vault_ok s.
Proof.
  unfold constructor. destruct (usdc =? 0); [done|]. intros [= <-].
  constructor; simpl; done.
Qed.

Lemma vault_ok_set_verifier v s : vault_ok s -> vault_ok (set_verifier v s).
Proof. intros []. by constructor. Qed.

Lemma challenge_ok_created id sender b amount st d log :
  paidToOwner id log = 0 -> 0 < amount <= MAX_UINT256 -> 0 < d <= MAX_UINT256 ->
  0 <= st <= MAX_UINT256 ->
  challenge_ok id (created_record sender b amount st d (amount / d) zeroChallenge) log.
Proof.
  intros Hpaid Ha Hd Hst.
  assert (unlockedDays (created_record sender b amount st d (amount / d) zeroChallenge) = ∅)
    as Hnone by apply unlockedDays_zero.
  constructor; rewrite ?Hnone, ?Hpaid, ?size_empty; simpl; try done; try lia.
Qed.

Lemma vault_ok_created env b amount st d s :
  vault_ok s -> 0 < amount <= MAX_UINT256 -> 0 < d <= MAX_UINT256 ->
  0 <= st <= MAX_UINT256 ->
  nextChallengeId s + 1 <= MAX_UINT256 ->
  vault_ok (created env (nextChallengeId s + 1) b amount st d (amount / d) s).
Proof.
  intros [Hnext Hids Hcs Hunused] Ha Hd Hst Hmax.
  assert (challenges s !! (nextChallengeId s + 1) = None) as Hfresh.
  { destruct (challenges s !! _) as [c|] eqn:Hc; [|done]. apply Hids in Hc. lia. }
  constructor; simpl.
  - lia.
  - intros id c. rewrite lookup_insert. case_decide; [lia|].
    intros Hc. apply Hids in Hc. lia.
  - intros id c. rewrite lookup_insert. case_decide as Hid.
    + intros [= <-]. subst id. rewrite (challengeAt_None _ _ Hfresh).
      apply challenge_ok_created; [|done..].
      rewrite paidToOwner_app, Hunused by done. simpl. lia.
    + intros Hc. eapply challenge_ok_log; [|by eapply Hcs].
      rewrite paidToOwner_app. simpl. lia.
  - intros id. rewrite lookup_insert. case_decide; [done|].
    intros Hnone. rewrite paidToOwner_app, Hunused by done. simpl. lia.
Qed.

Lemma vault_ok_attested id day s :
  vault_ok s ->
  let c := challengeAt id s in
  finalized c = false -> user c <> 0 -> 0 <= day < durationDays c ->
  dayUnlockedAt c day = false ->
  vault_ok (attested id day (released c + dailySlice c) s).
Proof.
  intros Hok c Hfin Hu Hday Hlocked.
  pose proof (stored_challenge id s (or_introl Hu)) as Hc. fold c in Hc.
  pose proof (ok_challenges s Hok id c Hc) as Hcok.
  destruct (challenge_ok_unlocked_le _ _ _ Hcok) as [Hslice _].
  unfold attested. rewrite update_challenge_twice.
  apply vault_ok_update; [done|by eexists| |done].
  fold c. destruct Hcok as [Hp Hd Hs Hdays Hr Hpaid Hacc Hpen Hst].
  constructor; simpl; try done.
  - intros i. change (unlockedDays _) with (unlockedDays (set_dayUnlocked day true c)).
    rewrite unlockedDays_set, elem_of_union, elem_of_singleton.
    intros [->|Hi]; [lia|by apply Hdays].
  - lia.
  - by rewrite paidToOwner_app, Z.add_0_r.
  - rewrite paidToOwner_app, Z.add_0_r.
    change (unlockedDays _) with (unlockedDays (set_dayUnlocked day true c)).
    rewrite size_unlockedDays_set by done. lia.
  - by rewrite Hfin in *.
Qed.

Lemma vault_ok_claimed id to s :
  vault_ok s ->
  let c := challengeAt id s in
  0 < released c ->
  vault_ok (claimed id to (released c) s).
Proof.
  intros Hok c Hpos.
  assert (released c <> 0) as Hne by lia.
  pose proof (stored_challenge id s (or_intror Hne)) as Hc. fold c in Hc.
  pose proof (ok_challenges s Hok id c Hc) as [Hp Hd Hs Hdays Hr Hpaid Hacc Hpen Hst].
  unfold claimed, zeroed. apply vault_ok_update; [done|by eexists| |].
  - fold c. constructor; simpl; try done.
    + rewrite paidToOwner_app. simpl. rewrite Z.eqb_refl. lia.
    + rewrite paidToOwner_app. simpl. rewrite Z.eqb_refl.
      change (unlockedDays _) with (unlockedDays c). lia.
  - intros id' Hid. simpl. destruct (Z.eqb_spec id id'); [congruence|done].
Qed.

Lemma vault_ok_finalized id s :
  vault_ok s ->
  let c := challengeAt id s in
  let remainder := principal c - dailySlice c * Z.of_nat (size (unlockedDays c)) in
  finalized c = false -> user c <> 0 ->
  vault_ok (finalized_with id remainder (penalized c + remainder) s).
Proof.
  intros Hok c remainder Hfin Hu.
  pose proof (stored_challenge id s (or_introl Hu)) as Hc. fold c in Hc.
  pose proof (ok_challenges s Hok id c Hc) as [Hp Hd Hs Hdays Hr Hpaid Hacc Hpen Hst].
  unfold finalized_with, settled. rewrite update_challenge_twice.
  apply vault_ok_update; [done|by eexists| |done].
  fold c. constructor; simpl; try done.
  - by rewrite paidToOwner_app, Z.add_0_r.
  - by rewrite paidToOwner_app, Z.add_0_r.
  - rewrite Hfin in Hpen. rewrite Hpen. done.
Qed.

Section Invariant.
Context {T : Type} `{Token : IERC20 T}.

(** Every transaction keeps the invariant. *)
Lemma transact_ok env tx s (t : T) :
  vault_ok s -> valid_env env -> valid_tx tx ->
  vault_ok (vault_after (transact env (runTx env tx) s t)).
Proof.
  intros Hok Henv Htx. unfold transact, vault_after.
  destruct (exec (this env) (runTx env tx s) t) as [e|[[a s'] t']] eqn:Hexec;
    simpl; [done|].
  destruct tx as [v|b amount st d|id day|id|id]; simpl in Htx.
  - apply setVerifier_success in Hexec as (_ & -> & _).
    by apply vault_ok_set_verifier.
  - rewrite exec_runTx_create in Hexec.
    destruct (exec _ (createChallenge _ _ _ _ _ _) _) as [|[[id s1] t1]] eqn:Hc; [done|].
    simplify_eq. apply createChallenge_success in Hc as (_ & ? & ? & _ & -> & ? & _ & ->).
    destruct Htx as (_ & [] & [] & []). by apply vault_ok_created.
  - apply attestCompletion_success in Hexec as (_ & ? & ? & ? & ? & _ & _ & -> & _).
    destruct Htx as (_ & []). by apply vault_ok_attested.
  - apply claimUnlocked_success in Hexec as (_ & ? & _ & ->).
    by apply vault_ok_claimed.
  - apply finalize_success in Hexec as (u & Hfin & Hu & _ & Hsum & _ & _ & _ & ->).
    pose proof (stored_challenge id s (or_introl Hu)) as Hc.
    rewrite (sumUnlocked_ok _ _ _ (ok_challenges s Hok _ _ Hc)) in Hsum.
    simplify_eq. by apply vault_ok_finalized.
Qed.

Lemma reachable_ok s : reachable (T := T) s -> vault_ok s.
Proof.
  induction 1 as [deployer usdc v s _ _ _ Hs|env tx s t _ IH Henv Htx].
  - by eapply vault_ok_constructor.
  - by apply transact_ok.
Qed.
End Invariant.

(** ** What transactions never undo *)

Lemma challenge_kept_refl c : challenge_kept c c.
Proof. by constructor. Qed.

Lemma challenge_kept_trans c1 c2 c3 :
  challenge_kept c1 c2 -> challenge_kept c2 c3 -> challenge_kept c1 c3.
Proof. intros [] []. constructor; try congruence; auto. Qed.

Lemma lookup_update_challenge id id' f e s :
  challenges (add_event e (update_challenge id' f s)) !! id =
  if decide (id' = id) then Some (f (challengeAt id' s)) else challenges s !! id.
Proof. simpl. apply lookup_insert. Qed.

Lemma kept_after_update id id' f e s c :
  challenges s !! id = Some c ->
  (forall c0, challenge_kept c0 (f c0)) ->
  exists c', challenges (add_event e (update_challenge id' f s)) !! id = Some c' /\
             challenge_kept c c'.
Proof.
  intros Hc Hf. rewrite lookup_update_challenge. case_decide as Hid.
  - subst id'. rewrite (challengeAt_Some _ _ _ Hc). eauto.
  - eauto using challenge_kept_refl.
Qed.

Section Stability.
Context {T : Type} `{Token : IERC20 T}.

Lemma transact_inl {A} env (m : M A) s (t : T) e :
  exec (this env) (m s) t = inl e -> transact env m s t = (inl e, s, t).
Proof. unfold transact. by intros ->. Qed.

Lemma transact_inr {A} env (m : M A) s (t : T) a s' t' :
  exec (this env) (m s) t = inr (a, s', t') -> transact env m s t = (inr a, s', t').
Proof. unfold transact. by intros ->. Qed.

Lemma transact_outcome {A} env (m : M A) s (t : T) a :
  outcome (transact env m s t) = inr a ->
  exec (this env) (m s) t =
  inr (a, vault_after (transact env m s t), token_after (transact env m s t)).
Proof.
  unfold transact, outcome, vault_after, token_after.
  destruct (exec _ _ _) as [e|[[a' s'] t']]; simpl; [done|]. by intros [= ->].
Qed.

Lemma transact_failed {A} env (m : M A) s (t : T) e :
  outcome (transact env m s t) = inl e ->
  vault_after (transact env m s t) = s /\ token_after (transact env m s t) = t.
Proof.
  unfold transact, outcome, vault_after, token_after.
  destruct (exec _ _ _) as [e'|[[a' s'] t']]; simpl; done.
Qed.

Lemma transact_kept env tx s (t : T) id c :
  vault_ok s -> challenges s !! id = Some c ->
  exists c', challenges (vault_after (transact env (runTx env tx) s t)) !! id = Some c' /\
             challenge_kept c c'.
Proof.
  intros Hok Hc. unfold transact, vault_after.
  destruct (exec (this env) (runTx env tx s) t) as [e|[[a s'] t']] eqn:Hexec;
    simpl; [eauto using challenge_kept_refl|].
  destruct tx as [v|b amount st d|id' day|id'|id'].
  - apply setVerifier_success in Hexec as (_ & -> & _).
    simpl. eauto using challenge_kept_refl.
  - rewrite exec_runTx_create in Hexec.
    destruct (exec _ (createChallenge _ _ _ _ _ _) _) as [|[[id1 s1] t1]] eqn:Hcr; [done|].
    simplify_eq. apply createChallenge_success in Hcr as (_ & _ & _ & _ & -> & _ & _ & ->).
    exists c. split; [|apply challenge_kept_refl]. simpl.
    rewrite lookup_insert_ne; [done|]. apply (ok_ids s Hok) in Hc. lia.
  - apply attestCompletion_success in Hexec as (_ & _ & _ & _ & _ & _ & _ & -> & _).
    unfold attested. rewrite update_challenge_twice.
    apply kept_after_update; [done|]. intros c0. constructor; simpl; try done.
    intros i Hi. change (dayUnlockedAt _ i) with (dayUnlockedAt (set_dayUnlocked day true c0) i).
    rewrite dayUnlockedAt_set. by case_decide.
  - apply claimUnlocked_success in Hexec as (_ & _ & _ & ->).
    unfold claimed, zeroed. apply kept_after_update; [done|].
    intros c0. by constructor.
  - apply finalize_success in Hexec as (u & _ & _ & _ & _ & _ & _ & _ & ->).
    unfold finalized_with, settled. rewrite update_challenge_twice.
    apply kept_after_update; [done|]. intros c0. by constructor.
Qed.

Lemma evolves_kept s s' id c :
  vault_ok s -> challenges s !! id = Some c -> evolves (T := T) s s' ->
  vault_ok s' /\ exists c', challenges s' !! id = Some c' /\ challenge_kept c c'.
Proof.
  intros Hok Hc. induction 1 as [s|env tx s s' t _ IH Henv Htx].
  - eauto using challenge_kept_refl.
  - destruct (IH Hok Hc) as (Hok' & c1 & Hc1 & Hk1).
    split; [by apply transact_ok|].
    destruct (transact_kept env tx s' t id c1 Hok' Hc1) as (c2 & Hc2 & Hk2).
    eauto using challenge_kept_trans.
Qed.

Lemma evolves_reachable s s' :
  reachable (T := T) s -> evolves (T := T) s s' -> reachable (T := T) s'.
Proof. intros Hs. induction 1; [done|]. apply reachable_tx; auto. Qed.

Lemma reachable_play txs (st : Vault * T) :
  reachable (T := T) st.1 ->
  Forall (fun p => valid_env p.1 /\ valid_tx p.2) txs ->
  reachable (T := T) (play txs st).1.
Proof.
  revert st. induction txs as [|[env tx] txs IH]; intros st Hst Hall; [done|].
  apply Forall_cons in Hall as [[Henv Htx] Hall]. simpl.
  apply IH; [|done]. simpl. by apply reachable_tx.
Qed.
End Stability.

(** ** The scenario is a run of the deployed contract *)

Ltac decide_valid :=
  repeat constructor; vm_compute; repeat split; discriminate.

Lemma deployed_reachable : reachable (Token := LedgerToken) Scenario.deployed.
Proof.
  apply (reachable_deploy Scenario.admin Scenario.usdc Scenario.attester);
    [decide_valid..|reflexivity].
Qed.

Lemma created100_reachable : reachable (Token := LedgerToken) Scenario.created100.1.
Proof. apply reachable_play; [apply deployed_reachable|decide_valid]. Qed.

Lemma attested0to3_reachable : reachable (Token := LedgerToken) Scenario.attested0to3.1.
Proof. apply reachable_play; [apply created100_reachable|decide_valid]. Qed.

Lemma claimed56_reachable : reachable (Token := LedgerToken) Scenario.claimed56.1.
Proof. apply reachable_play; [apply attested0to3_reachable|decide_valid]. Qed.

Lemma attested4_reachable : reachable (Token := LedgerToken) Scenario.attested4.1.
Proof. apply reachable_play; [apply claimed56_reachable|decide_valid]. Qed.

Lemma finished_reachable : reachable (Token := LedgerToken) Scenario.finished.1.
Proof. apply reachable_play; [apply attested4_reachable|decide_valid]. Qed.

Lemma created3_reachable : reachable (Token := LedgerToken) Scenario.created3.1.
Proof. apply reachable_play; [apply deployed_reachable|decide_valid]. Qed.

Lemma createdLate_reachable : reachable (Token := LedgerToken) Scenario.createdLate.1.
Proof. apply reachable_play; [apply deployed_reachable|decide_valid]. Qed.

(** The scenario of the specification, step by step. *)
Example scenario_values :
  getChallenge 1 Scenario.created100.1 = (5, 6, 100, 0, 0, 1000, 7, 14, false) /\
  released (challengeAt 1 Scenario.attested0to3.1) = 56 /\
  released (challengeAt 1 Scenario.claimed56.1) = 0 /\
  balanceOf Scenario.alice Scenario.claimed56.2 = 900 + 56 /\
  released (challengeAt 1 Scenario.attested4.1) = 14 /\
  penalized (challengeAt 1 Scenario.finished.1) = 30 /\
  balanceOf Scenario.bob Scenario.finished.2 = 30 /\
  finalized (challengeAt 1 Scenario.finished.1) = true.
Proof. vm_compute. repeat split. Qed.

(** * The claims *)

Lemma transact_success {T : Type} {Token : IERC20 T} {A} env (m : M A) s (t : T) a :
  outcome (transact env m s t) = inr a ->
  exists s' t', exec (this env) (m s) t = inr (a, s', t') /\
                transact env m s t = (inr a, s', t').
Proof.
  unfold transact, outcome.
  destruct (exec _ _ _) as [e|[[a' s'] t']]; simpl; [done|]. intros [= ->]. eauto.
Qed.

Lemma vault_after_eq {T A} (x : Error + A) s (t : T) : vault_after (x, s, t) = s.
Proof. reflexivity. Qed.

Lemma token_after_eq {T A} (x : Error + A) s (t : T) : token_after (x, s, t) = t.
Proof. reflexivity. Qed.

Lemma outcome_eq {T A} (x : Error + A) s (t : T) : outcome (x, s, t) = x.
Proof. reflexivity. Qed.

(** ** Conservation *)

Lemma conservation_ok s id :
  vault_ok s ->
  let c := challengeAt id s in
  paidToOwner id (events s) + released c + penalized c <= principal c /\
  (finalized c = true ->
   paidToOwner id (events s) + released c + penalized c = principal c).
Proof.
  intros Hok c. subst c. destruct (challenges s !! id) as [c|] eqn:Hc.
  - rewrite (challengeAt_Some _ _ _ Hc).
    pose proof (ok_challenges s Hok id c Hc) as Hcok.
    destruct (challenge_ok_unlocked_le _ _ _ Hcok) as [_ Hle].
    destruct Hcok as [_ _ _ _ _ _ Hacc Hpen _].
    destruct (finalized c); split; (lia || done).
  - rewrite (challengeAt_None _ _ Hc), (ok_unused s Hok id Hc). simpl. split; [lia|done].
Qed.

(** C1. In every reachable state and for every challenge, what the log
    records as paid to the owner, plus the released balance, plus
    [penalized], is at most [principal] (and equals it once the challenge is
    finalized); right after a successful [finalize], [penalized] plus the sum
    of [dailySlice] over the unlocked days is exactly [principal]. *)
Theorem C1_conservation {T : Type} {Token : IERC20 T} (s : Vault) (id : Z) :
  reachable (T := T) s ->
  let c := challengeAt id s in
  paidToOwner id (events s) + released c + penalized c <= principal c /\
  (finalized c = true ->
   paidToOwner id (events s) + released c + penalized c = principal c) /\
  (forall env (t : T),
     let r := transact env (finalize env id) s t in
     outcome r = inr tt ->
     let c' := challengeAt id (vault_after r) in
     finalized c' = true /\
     unlockedDays c' = unlockedDays c /\
     penalized c' + unlockedSlices c' = principal c').
Proof.
  intros Hreach c. pose proof (reachable_ok s Hreach) as Hok.
  destruct (conservation_ok s id Hok) as [Hle Heq].
  split; [done|]. split; [done|].
  intros env t r Hr c'. subst r c'.
  apply transact_success in Hr as (s' & t' & Hr & ->). rewrite vault_after_eq.
  apply finalize_success in Hr as (u & Hfin & Hu & _ & Hsum & _ & _ & _ & ->).
  pose proof (stored_challenge id s (or_introl Hu)) as Hc. fold c in Hc, Hfin, Hsum.
  pose proof (ok_challenges s Hok id c Hc) as Hcok.
  rewrite (sumUnlocked_ok _ _ _ Hcok) in Hsum. injection Hsum as <-.
  destruct Hcok as [_ _ _ _ _ _ _ Hpen _]. rewrite Hfin in Hpen.
  unfold finalized_with, settled. rewrite challengeAt_add_event, !challengeAt_update_eq.
  fold c. rewrite unlockedSlices_size. simpl.
  change (unlockedDays (set_finalized _ _)) with (unlockedDays c).
  repeat split. lia.
Qed.

Lemma C1_conservation_witness :
  reachable (Token := LedgerToken) Scenario.attested4.1 /\
  paidToOwner 1 (events Scenario.attested4.1)
  + released (challengeAt 1 Scenario.attested4.1)
  + penalized (challengeAt 1 Scenario.attested4.1)
  <= principal (challengeAt 1 Scenario.attested4.1).
Proof.
  split; [apply attested4_reachable|].
  apply (C1_conservation (Token := LedgerToken) Scenario.attested4.1 1 attested4_reachable).
Defined.

(** ** Claiming *)

(** The body of [claimUnlocked] for the owner of a positive balance: one
    call to the token, made on the storage in which [released] is already
    zero, and resumed by the event or by the revert. *)
Lemma claimUnlocked_run env id s :
  let c := challengeAt id s in
  user c = msg_sender env -> 0 < released c ->
  exists k,
    claimUnlocked env id s =
    External (Call_transfer (USDC s) (msg_sender env) (released c)) (zeroed id s) k /\
    (forall s1, k true s1 = Done tt (add_event (Claimed id (msg_sender env) (released c)) s1)) /\
    (forall s1, k false s1 = Revert TRANSFER_FAIL).
Proof.
  intros c Hu Hpos. unfold claimUnlocked. mstep. fold c.
  rewrite Hu, Z.eqb_refl.
  destruct (Z.gtb_spec (released c) 0) as [_|]; [|lia].
  eexists. split; [reflexivity|]. split; reflexivity.
Qed.

Lemma released_zeroed id s : released (challengeAt id (zeroed id s)) = 0.
Proof. unfold zeroed. by rewrite challengeAt_update_eq. Qed.

Lemma released_claimed id to amount s : released (challengeAt id (claimed id to amount s)) = 0.
Proof. unfold claimed. rewrite challengeAt_add_event. apply released_zeroed. Qed.

(** On the balance-keeping token, a transfer that returns [true] raises the
    receiver's balance by the amount. *)
Lemma move_receives from to amount t t' :
  from <> to -> move from to amount t = Some (true, t') ->
  balanceOf to t' = balanceOf to t + amount /\
  balanceOf from t' = balanceOf from t - amount.
Proof.
  unfold move. intros Hne. destruct (amount <=? balanceOf from t); [|done].
  intros [= <-]. split.
  - unfold balanceOf at 1. rewrite lookup_insert_eq. simpl.
    unfold balanceOf at 1. by rewrite lookup_insert_ne.
  - unfold balanceOf at 1. by rewrite lookup_insert_ne, lookup_insert_eq.
Qed.

(** C2. A successful [claimUnlocked] by the owner of a challenge with
    [released > 0]: the token's [transfer] is called once, for the owner
    and for exactly the balance read before the call, on the storage in
    which [released] is already zero; after the call [released] is zero, and
    on the balance-keeping token the owner's balance grew by that amount. *)
Theorem C2_claim_zeroes_then_pays (env : Env) (id : Z) (s : Vault) :
  let c := challengeAt id s in
  user c = msg_sender env -> 0 < released c ->
  (exists k,
     claimUnlocked env id s =
     External (Call_transfer (USDC s) (msg_sender env) (released c)) (zeroed id s) k /\
     released (challengeAt id (zeroed id s)) = 0 /\
     (forall s1, k true s1 = Done tt (add_event (Claimed id (msg_sender env) (released c)) s1)) /\
     (forall s1, k false s1 = Revert TRANSFER_FAIL)) /\
  (forall (T : Type) (Token : IERC20 T) (t : T),
     let r := transact env (claimUnlocked env id) s t in
     outcome r = inr tt ->
     transfer (this env) (msg_sender env) (released c) t = Some (true, token_after r) /\
     vault_after r = claimed id (msg_sender env) (released c) s /\
     released (challengeAt id (vault_after r)) = 0) /\
  (forall (t : Balances),
     let r := transact (Token := LedgerToken) env (claimUnlocked env id) s t in
     outcome r = inr tt -> this env <> msg_sender env ->
     balanceOf (msg_sender env) (token_after r) =
     balanceOf (msg_sender env) t + released c).
Proof.
  intros c Hu Hpos. split; [|split].
  - destruct (claimUnlocked_run env id s Hu Hpos) as (k & Hrun & Hk1 & Hk2).
    exists k. by rewrite released_zeroed.
  - intros T Token t r Hr. subst r.
    apply transact_success in Hr as (s' & t' & Hr & ->).
    rewrite vault_after_eq, token_after_eq.
    apply claimUnlocked_success in Hr as (_ & _ & Htr & ->).
    by rewrite released_claimed.
  - intros t r Hr Hne. subst r.
    apply transact_success in Hr as (s' & t' & Hr & ->). rewrite token_after_eq.
    apply claimUnlocked_success in Hr as (_ & _ & Htr & _).
    by apply (move_receives _ _ _ _ _ Hne) in Htr as [-> _].
Qed.

Lemma C2_claim_zeroes_then_pays_witness :
  (user (challengeAt 1 Scenario.attested0to3.1) = Scenario.alice /\
   0 < released (challengeAt 1 Scenario.attested0to3.1)) /\
  exists k,
    claimUnlocked (Scenario.at_time Scenario.alice (Scenario.day 3)) 1 Scenario.attested0to3.1 =
    External (Call_transfer Scenario.usdc Scenario.alice 56)
      (zeroed 1 Scenario.attested0to3.1) k.
Proof.
  split; [split; [reflexivity|vm_compute; reflexivity]|].
  destruct (C2_claim_zeroes_then_pays
              (Scenario.at_time Scenario.alice (Scenario.day 3)) 1 Scenario.attested0to3.1)
    as [[k [Hk _]] _]; [reflexivity|vm_compute; reflexivity|].
  exists k. exact Hk.
Defined.

(** C3. When the token's [transfer] fails during [claimUnlocked] (it
    returns [false] or reverts), the transaction fails with a transfer error
    and storage, log and token are as before, so [released] has its value
    from before the call; a retry against a token whose [transfer] succeeds
    then pays exactly that amount, zeroes [released], and leaves nothing for
    a further claim. *)
Theorem C3_failed_payout_is_rolled_back
    {T : Type} {Token : IERC20 T} (env : Env) (id : Z) (s : Vault) (t : T) :
  let c := challengeAt id s in
  let r := transact env (claimUnlocked env id) s t in
  user c = msg_sender env -> 0 < released c ->
  (forall t1, transfer (this env) (msg_sender env) (released c) t <> Some (true, t1)) ->
  (exists e, outcome r = inl e /\ transfer_error e = true /\
             (transfer (this env) (msg_sender env) (released c) t = None ->
              e = CALLEE_REVERTED) /\
             (forall t1, transfer (this env) (msg_sender env) (released c) t = Some (false, t1) ->
              e = TRANSFER_FAIL)) /\
  vault_after r = s /\ token_after r = t /\
  released (challengeAt id (vault_after r)) = released c /\
  (forall (t2 t2' : T),
     transfer (this env) (msg_sender env) (released c) t2 = Some (true, t2') ->
     let r2 := transact env (claimUnlocked env id) (vault_after r) t2 in
     outcome r2 = inr tt /\ token_after r2 = t2' /\
     paidToOwner id (events (vault_after r2)) = paidToOwner id (events s) + released c /\
     released (challengeAt id (vault_after r2)) = 0 /\
     (forall (t3 : T),
        transact env (claimUnlocked env id) (vault_after r2) t3 =
        (inl NOTHING_TO_CLAIM, vault_after r2, t3))).
Proof.
  intros c r Hu Hpos Hfail.
  assert (exec (this env) (claimUnlocked env id s) t =
          match transfer (this env) (msg_sender env) (released c) t with
          | None => inl CALLEE_REVERTED
          | Some (true, t') => inr (tt, claimed id (msg_sender env) (released c) s, t')
          | Some (false, _) => inl TRANSFER_FAIL
          end) as Hexec.
  { rewrite exec_claimUnlocked. cbv zeta. fold c. rewrite Hu, Z.eqb_refl.
    destruct (Z.gtb_spec (released c) 0); [done|lia]. }
  assert (exists e, r = (inl e, s, t) /\ transfer_error e = true /\
            (transfer (this env) (msg_sender env) (released c) t = None -> e = CALLEE_REVERTED) /\
            (forall t1, transfer (this env) (msg_sender env) (released c) t = Some (false, t1) ->
                        e = TRANSFER_FAIL)) as (e & Hr & He & Hnone & Hfalse).
  { subst r. destruct (transfer _ _ _ t) as [[[] t1]|] eqn:Htr.
    - by destruct (Hfail t1).
    - exists TRANSFER_FAIL. by rewrite (transact_inl _ _ _ _ _ Hexec).
    - exists CALLEE_REVERTED. by rewrite (transact_inl _ _ _ _ _ Hexec). }
  rewrite Hr, vault_after_eq, token_after_eq, outcome_eq.
  split; [by exists e|]. do 3 (split; [done|]).
  intros t2 t2' Hpay r2. subst r2.
  assert (transact env (claimUnlocked env id) s t2 =
          (inr tt, claimed id (msg_sender env) (released c) s, t2')) as ->.
  { apply transact_inr. rewrite exec_claimUnlocked. cbv zeta. fold c.
    rewrite Hu, Z.eqb_refl, Hpay. destruct (Z.gtb_spec (released c) 0); [done|lia]. }
  rewrite vault_after_eq, token_after_eq, outcome_eq, released_claimed.
  do 2 (split; [done|]). split; [|split; [done|]].
  - unfold claimed. simpl. rewrite paidToOwner_app. simpl. rewrite Z.eqb_refl. lia.
  - intros t3. apply transact_inl. rewrite exec_claimUnlocked. cbv zeta.
    rewrite released_claimed. unfold claimed, zeroed.
    rewrite challengeAt_add_event, challengeAt_update_eq. simpl. fold c.
    by rewrite Hu, Z.eqb_refl.
Qed.

Lemma C3_failed_payout_is_rolled_back_witness :
  let env := Scenario.at_time Scenario.alice (Scenario.day 3) in
  let s := Scenario.attested0to3.1 in
  let r := transact (Token := RefusingToken) env (claimUnlocked env 1) s tt in
  (user (challengeAt 1 s) = msg_sender env /\ 0 < released (challengeAt 1 s)) /\
  outcome r = inl TRANSFER_FAIL /\ vault_after r = s /\
  released (challengeAt 1 (vault_after r)) = 56.
Proof.
  intros env s r.
  assert (user (challengeAt 1 s) = msg_sender env) as Hu by (vm_compute; reflexivity).
  assert (0 < released (challengeAt 1 s)) as Hpos by (vm_compute; reflexivity).
  split; [exact (conj Hu Hpos)|].
  destruct (C3_failed_payout_is_rolled_back (Token := RefusingToken) env 1 s tt Hu Hpos)
    as ((e & He & _ & _ & Hfalse) & Hs & _ & Hrel & _).
  { intros t1. discriminate. }
  pose proof (Hfalse tt eq_refl) as ->.
  split; [exact He|]. split; [exact Hs|].
  vm_compute. reflexivity.
Defined.

(** C9. [claimUnlocked] does not look at [finalized]: [finalize] leaves
    [released] as it is, and on a finalized challenge with [released > 0]
    the owner's claim passes every check, calls the token for exactly that
    balance and, when the token pays, completes and records the payment. *)
Theorem C9_claim_not_gated_on_finalization
    {T : Type} {Token : IERC20 T} (env : Env) (id : Z) (s : Vault) (t : T) :
  let c := challengeAt id s in
  (forall env0 (t0 : T),
     let r0 := transact env0 (finalize env0 id) s t0 in
     outcome r0 = inr tt ->
     finalized (challengeAt id (vault_after r0)) = true /\
     released (challengeAt id (vault_after r0)) = released c) /\
  (finalized c = true -> user c = msg_sender env -> 0 < released c ->
   (exists k,
      claimUnlocked env id s =
      External (Call_transfer (USDC s) (msg_sender env) (released c)) (zeroed id s) k /\
      forall s1, k true s1 = Done tt (add_event (Claimed id (msg_sender env) (released c)) s1)) /\
   (forall t',
      transfer (this env) (msg_sender env) (released c) t = Some (true, t') ->
      let s' := claimed id (msg_sender env) (released c) s in
      transact env (claimUnlocked env id) s t = (inr tt, s', t') /\
      paidToOwner id (events s') = paidToOwner id (events s) + released c /\
      released (challengeAt id s') = 0 /\ finalized (challengeAt id s') = true)).
Proof.
  intros c. split.
  - intros env0 t0 r0 Hr. subst r0.
    apply transact_success in Hr as (s' & t' & Hr & ->). rewrite vault_after_eq.
    apply finalize_success in Hr as (u & _ & _ & _ & _ & _ & _ & _ & ->).
    unfold finalized_with, settled.
    by rewrite challengeAt_add_event, !challengeAt_update_eq.
  - intros Hfin Hu Hpos. split.
    + destruct (claimUnlocked_run env id s Hu Hpos) as (k & Hrun & Hk & _). eauto.
    + intros t' Hpay s'. subst s'. rewrite released_claimed. repeat split.
      * apply transact_inr. rewrite exec_claimUnlocked. cbv zeta. fold c.
        rewrite Hu, Z.eqb_refl, Hpay. destruct (Z.gtb_spec (released c) 0); [done|lia].
      * unfold claimed. simpl. rewrite paidToOwner_app. simpl. rewrite Z.eqb_refl. lia.
      * unfold claimed, zeroed. by rewrite challengeAt_add_event, challengeAt_update_eq.
Qed.

Lemma C9_claim_not_gated_on_finalization_witness :
  let env := Scenario.at_time Scenario.alice (Scenario.day 9) in
  let s := Scenario.finished.1 in
  let r := transact (Token := LedgerToken) env (claimUnlocked env 1) s Scenario.finished.2 in
  (finalized (challengeAt 1 s) = true /\ user (challengeAt 1 s) = msg_sender env /\
   0 < released (challengeAt 1 s)) /\
  outcome r = inr tt /\
  balanceOf Scenario.alice (token_after r) = balanceOf Scenario.alice Scenario.finished.2 + 14.
Proof.
  intros env s r.
  assert (finalized (challengeAt 1 s) = true) as Hfin by (vm_compute; reflexivity).
  assert (user (challengeAt 1 s) = msg_sender env) as Hu by (vm_compute; reflexivity).
  assert (0 < released (challengeAt 1 s)) as Hpos by (vm_compute; reflexivity).
  split; [exact (conj Hfin (conj Hu Hpos))|].
  destruct (C9_claim_not_gated_on_finalization (Token := LedgerToken)
              env 1 s Scenario.finished.2) as [_ Hclaim].
  destruct (Hclaim Hfin Hu Hpos) as [_ Hpay].
  destruct (Hpay (token_after r)) as [Hr _]; [vm_compute; reflexivity|].
  split; [exact (f_equal outcome Hr)|]. vm_compute. reflexivity.
Defined.

(** ** After finalization, after an attestation *)

Section Afterwards.
Context {T : Type} `{Token : IERC20 T}.

Lemma finalize_done self env id s (t : T) a s' t' :
  vault_ok s -> exec self (finalize env id s) t = inr (a, s', t') ->
  vault_ok s' /\
  exists c', challenges s' !! id = Some c' /\ finalized c' = true /\
             challenge_kept (challengeAt id s) c'.
Proof.
  intros Hok Hexec.
  apply finalize_success in Hexec as (u & Hfin & Hu & _ & Hsum & _ & _ & _ & ->).
  pose proof (stored_challenge id s (or_introl Hu)) as Hc.
  rewrite (sumUnlocked_ok _ _ _ (ok_challenges s Hok _ _ Hc)) in Hsum.
  injection Hsum as <-. split; [by apply vault_ok_finalized|].
  unfold finalized_with, settled. rewrite update_challenge_twice, lookup_update_challenge.
  rewrite decide_True by done. eexists. split; [done|]. split; [done|]. by constructor.
Qed.

Lemma attestCompletion_done self env id day s (t : T) a s' t' :
  vault_ok s -> 0 <= day -> exec self (attestCompletion env id day s) t = inr (a, s', t') ->
  vault_ok s' /\
  exists c', challenges s' !! id = Some c' /\ dayUnlockedAt c' day = true /\
             user c' <> 0 /\ day < durationDays c'.
Proof.
  intros Hok Hday Hexec.
  apply attestCompletion_success in Hexec as (_ & Hfin & Hu & Hd & Hlocked & _ & _ & -> & _).
  split; [by apply vault_ok_attested|].
  unfold attested. rewrite update_challenge_twice, lookup_update_challenge.
  rewrite decide_True by done. eexists. split; [done|]. simpl. split; [|done].
  change (dayUnlockedAt _ day)
    with (dayUnlockedAt (set_dayUnlocked day true (challengeAt id s)) day).
  rewrite dayUnlockedAt_set. by rewrite decide_True.
Qed.

Lemma createChallenge_done self env b amount st d s (t : T) id s' t' :
  vault_ok s -> is_uint256 amount -> is_uint256 st -> is_uint256 d ->
  exec self (createChallenge env b amount st d s) t = inr (id, s', t') ->
  vault_ok s' /\
  challenges s' !! id =
  Some (created_record (msg_sender env) b amount st d (amount / d) zeroChallenge).
Proof.
  intros Hok [_ Ha] Hst [_ Hd] Hexec.
  apply createChallenge_success in Hexec as (_ & ? & ? & _ & -> & ? & _ & ->).
  split; [by apply vault_ok_created|]. simpl. rewrite lookup_insert_eq.
  rewrite challengeAt_None; [done|].
  destruct (challenges s !! _) as [c|] eqn:Hc; [|done].
  apply (ok_ids s Hok) in Hc. lia.
Qed.
End Afterwards.

(** C4, as amended. Once [finalize] has succeeded on a challenge, whatever
    transactions follow: the challenge stays finalized; every
    [attestCompletion] on it is rejected and changes nothing, with
    [FINALIZED] when the caller is the verifier and with [NOT_VERIFIER]
    otherwise; every further [finalize] is rejected with [FINALIZED] and
    changes nothing, so [finalize] succeeds at most once. *)
Theorem C4_finalized_is_terminal
    {T : Type} {Token : IERC20 T} (s : Vault) (id : Z) (env : Env) (t : T) (s2 : Vault) :
  reachable (T := T) s ->
  outcome (transact env (finalize env id) s t) = inr tt ->
  evolves (T := T) (vault_after (transact env (finalize env id) s t)) s2 ->
  finalized (challengeAt id s2) = true /\
  (forall env' day (t' : T),
     transact env' (attestCompletion env' id day) s2 t' =
     (inl (if msg_sender env' =? verifier s2 then FINALIZED else NOT_VERIFIER), s2, t')) /\
  (forall env' (t' : T),
     transact env' (finalize env' id) s2 t' = (inl FINALIZED, s2, t')).
Proof.
  intros Hreach Hr Hev. pose proof (reachable_ok s Hreach) as Hok.
  apply transact_success in Hr as (s1 & t1 & Hexec & Htr).
  rewrite Htr, vault_after_eq in Hev.
  destruct (finalize_done _ _ _ _ _ _ _ _ Hok Hexec) as (Hok1 & c1 & Hc1 & Hfin1 & _).
  destruct (evolves_kept s1 s2 id c1 Hok1 Hc1 Hev) as (_ & c2 & Hc2 & Hkept).
  assert (finalized (challengeAt id s2) = true) as Hfin2.
  { rewrite (challengeAt_Some _ _ _ Hc2). by apply Hkept. }
  split; [done|]. split.
  - intros env' day t'. apply transact_inl. rewrite exec_attestCompletion. cbv zeta.
    rewrite Hfin2. by destruct (msg_sender env' =? verifier s2).
  - intros env' t'. apply transact_inl. rewrite exec_finalize. cbv zeta. by rewrite Hfin2.
Qed.

Lemma C4_finalized_is_terminal_witness :
  let env := Scenario.at_time Scenario.bob (Scenario.day 7) in
  let r := transact (Token := LedgerToken) env (finalize env 1)
             Scenario.attested4.1 Scenario.attested4.2 in
  (reachable (Token := LedgerToken) Scenario.attested4.1 /\ outcome r = inr tt) /\
  finalized (challengeAt 1 (vault_after r)) = true /\
  transact (Token := LedgerToken) env (finalize env 1) (vault_after r) (token_after r) =
  (inl FINALIZED, vault_after r, token_after r).
Proof.
  intros env r.
  assert (outcome r = inr tt) as Hr by (vm_compute; reflexivity).
  split; [exact (conj attested4_reachable Hr)|].
  destruct (C4_finalized_is_terminal (Token := LedgerToken)
              Scenario.attested4.1 1 env Scenario.attested4.2 (vault_after r)
              attested4_reachable Hr (evolves_refl _)) as (Hfin & _ & Hagain).
  exact (conj Hfin (Hagain env (token_after r))).
Defined.

(** C4 as stated fails for a caller that is not the verifier: on the
    finalized challenge of the scenario, [alice]'s [attestCompletion] is
    rejected with [NOT_VERIFIER], not with [FINALIZED]. *)
Lemma C4_counterexample :
  let env := Scenario.at_time Scenario.alice (Scenario.day 7) in
  finalized (challengeAt 1 Scenario.finished.1) = true /\
  outcome (transact (Token := LedgerToken) env (attestCompletion env 1 5)
             Scenario.finished.1 Scenario.finished.2) = inl NOT_VERIFIER /\
  outcome (transact (Token := LedgerToken) env (attestCompletion env 1 5)
             Scenario.finished.1 Scenario.finished.2) <> inl FINALIZED.
Proof. vm_compute. repeat split. discriminate. Qed.

(** C5, as amended. Once [attestCompletion] has succeeded for a day of a
    challenge, whatever transactions follow: the day stays unlocked and every
    further [attestCompletion] of that day is rejected and changes nothing.
    The error is [ALREADY_UNLOCKED] when the caller is the verifier and the
    challenge is not finalized; [NOT_VERIFIER] and [FINALIZED] come first. *)
Theorem C5_day_attested_once
    {T : Type} {Token : IERC20 T} (s : Vault) (id day : Z) (env : Env) (t : T) (s2 : Vault) :
  reachable (T := T) s -> 0 <= day ->
  outcome (transact env (attestCompletion env id day) s t) = inr tt ->
  evolves (T := T) (vault_after (transact env (attestCompletion env id day) s t)) s2 ->
  dayUnlockedAt (challengeAt id s2) day = true /\
  (forall env' (t' : T),
     transact env' (attestCompletion env' id day) s2 t' =
     (inl (if negb (msg_sender env' =? verifier s2) then NOT_VERIFIER
           else if finalized (challengeAt id s2) then FINALIZED
           else ALREADY_UNLOCKED), s2, t')).
Proof.
  intros Hreach Hday Hr Hev. pose proof (reachable_ok s Hreach) as Hok.
  apply transact_success in Hr as (s1 & t1 & Hexec & Htr).
  rewrite Htr, vault_after_eq in Hev.
  destruct (attestCompletion_done _ _ _ _ _ _ _ _ _ Hok Hday Hexec)
    as (Hok1 & c1 & Hc1 & Hun1 & Hu1 & Hd1).
  destruct (evolves_kept s1 s2 id c1 Hok1 Hc1 Hev) as (_ & c2 & Hc2 & Hkept).
  rewrite (challengeAt_Some _ _ _ Hc2).
  assert (dayUnlockedAt c2 day = true) as Hun2 by by apply Hkept.
  split; [done|]. intros env' t'. apply transact_inl.
  rewrite exec_attestCompletion. cbv zeta. rewrite (challengeAt_Some _ _ _ Hc2).
  destruct (negb _); [done|]. destruct (finalized c2); [done|].
  rewrite (kept_user _ _ Hkept), (kept_durationDays _ _ Hkept), Hun2.
  destruct (Z.eqb_spec (user c1) 0); [done|].
  destruct (Z.ltb_spec day (durationDays c1)); [done|lia].
Qed.

Lemma C5_day_attested_once_witness :
  let env := Scenario.at_time Scenario.attester (Scenario.day 4) in
  let r := transact (Token := LedgerToken) env (attestCompletion env 1 4)
             Scenario.claimed56.1 Scenario.claimed56.2 in
  (reachable (Token := LedgerToken) Scenario.claimed56.1 /\ 0 <= 4 /\ outcome r = inr tt) /\
  dayUnlockedAt (challengeAt 1 (vault_after r)) 4 = true /\
  outcome (transact (Token := LedgerToken) env (attestCompletion env 1 4)
             (vault_after r) (token_after r)) = inl ALREADY_UNLOCKED.
Proof.
  intros env r.
  assert (outcome r = inr tt) as Hr by (vm_compute; reflexivity).
  assert (0 <= 4) as H4 by lia.
  split; [exact (conj claimed56_reachable (conj H4 Hr))|].
  destruct (C5_day_attested_once (Token := LedgerToken)
              Scenario.claimed56.1 1 4 env Scenario.claimed56.2 (vault_after r)
              claimed56_reachable H4 Hr (evolves_refl _)) as (Hun & Hagain).
  split; [exact Hun|]. vm_compute. reflexivity.
Defined.

(** C5 as stated fails once the challenge is finalized: day 0 of the
    scenario was attested, and after [finalize] the verifier's second
    attestation of day 0 is rejected with [FINALIZED], not with
    [ALREADY_UNLOCKED]. *)
Lemma C5_counterexample :
  let env0 := Scenario.at_time Scenario.attester (Scenario.day 3) in
  let env := Scenario.at_time Scenario.attester (Scenario.day 7) in
  outcome (transact (Token := LedgerToken) env0 (attestCompletion env0 1 0)
             Scenario.created100.1 Scenario.created100.2) = inr tt /\
  dayUnlockedAt (challengeAt 1 Scenario.finished.1) 0 = true /\
  msg_sender env = verifier Scenario.finished.1 /\
  outcome (transact (Token := LedgerToken) env (attestCompletion env 1 0)
             Scenario.finished.1 Scenario.finished.2) = inl FINALIZED /\
  outcome (transact (Token := LedgerToken) env (attestCompletion env 1 0)
             Scenario.finished.1 Scenario.finished.2) <> inl ALREADY_UNLOCKED.
Proof. vm_compute. repeat split. discriminate. Qed.

(** ** The time gate of an attestation *)

(** C6, as amended. For a stored, non-finalized challenge, the verifier and
    a day below [durationDays] not yet unlocked, with
    [due = startTime + dayIndex * 1 days]: before [due] the attestation fails
    with [DAY_NOT_STARTED], provided [due] is representable in 256 bits (when
    it is not, the checked addition panics); from [due] on, and so at
    exactly [due], it succeeds, unlocks the day and adds [dailySlice] to
    [released]. No other day is consulted. *)
Theorem C6_attestation_time_gate
    {T : Type} {Token : IERC20 T} (s : Vault) (env : Env) (id day : Z) (t : T) :
  let c := challengeAt id s in
  let due := startTime c + day * ONE_DAY in
  let r := transact env (attestCompletion env id day) s t in
  reachable (T := T) s -> valid_env env ->
  user c <> 0 -> finalized c = false -> msg_sender env = verifier s ->
  0 <= day < durationDays c -> dayUnlockedAt c day = false ->
  (block_timestamp env < due -> due <= MAX_UINT256 ->
   r = (inl DAY_NOT_STARTED, s, t)) /\
  (MAX_UINT256 < due -> r = (inl PANIC_ARITHMETIC, s, t)) /\
  (due <= block_timestamp env ->
   r = (inr tt, attested id day (released c + dailySlice c) s, t) /\
   released (challengeAt id (vault_after r)) = released c + dailySlice c /\
   dayUnlockedAt (challengeAt id (vault_after r)) day = true).
Proof.
  intros c due r Hreach (_ & [_ Hnow] & _) Hu Hfin Hsender Hday Hlocked.
  pose proof (reachable_ok s Hreach) as Hok.
  pose proof (stored_challenge id s (or_introl Hu)) as Hc. fold c in Hc.
  pose proof (ok_challenges s Hok id c Hc) as Hcok.
  destruct (challenge_ok_unlocked_le _ _ _ Hcok) as [Hslice _].
  destruct Hcok as [Hp Hd Hs Hdays Hr Hpaid Hacc Hpen Hst].
  pose proof (size_unlockedDays_lt c day Hdays Hday Hlocked) as Hroom.
  destruct (slice_times_duration (principal c) (durationDays c)) as (_ & Hle & _); [lia..|].
  assert (released c + dailySlice c <= MAX_UINT256) as Hfits by (rewrite Hs in *; nia).
  assert (exec (this env) (attestCompletion env id day s) t =
          match mul256 day ONE_DAY with
          | None => inl PANIC_ARITHMETIC
          | Some offset =>
            match add256 (startTime c) offset with
            | None => inl PANIC_ARITHMETIC
            | Some due =>
              if negb (block_timestamp env >=? due) then inl DAY_NOT_STARTED
              else inr (tt, attested id day (released c + dailySlice c) s, t)
            end
          end) as Hexec.
  { rewrite exec_attestCompletion. cbv zeta. fold c.
    rewrite Hsender, Z.eqb_refl, Hfin, Hlocked. simpl.
    destruct (Z.eqb_spec (user c) 0); [done|].
    destruct (Z.ltb_spec day (durationDays c)); [|lia]. simpl.
    destruct (mul256 day ONE_DAY); [|done]. destruct (add256 (startTime c) z); [|done].
    destruct (negb _); [done|].
    unfold add256. by destruct (Z.leb_spec (released c + dailySlice c) MAX_UINT256); [|lia]. }
  unfold ONE_DAY in *. subst due. split; [|split].
  - intros Hearly Hrep. subst r. apply transact_inl. rewrite Hexec.
    unfold mul256, add256.
    destruct (Z.leb_spec (day * 86400) MAX_UINT256); [|lia].
    destruct (Z.leb_spec (startTime c + day * 86400) MAX_UINT256); [|lia].
    rewrite Z.geb_leb. by destruct (Z.leb_spec (startTime c + day * 86400) (block_timestamp env)); [lia|].
  - intros Hover. subst r. apply transact_inl. rewrite Hexec.
    unfold mul256, add256.
    destruct (Z.leb_spec (day * 86400) MAX_UINT256); [|done].
    by destruct (Z.leb_spec (startTime c + day * 86400) MAX_UINT256); [lia|].
  - intros Hdue.
    assert (r = (inr tt, attested id day (released c + dailySlice c) s, t)) as ->.
    { subst r. apply transact_inr. rewrite Hexec. unfold mul256, add256.
      destruct (Z.leb_spec (day * 86400) MAX_UINT256); [|lia].
      destruct (Z.leb_spec (startTime c + day * 86400) MAX_UINT256); [|lia].
      rewrite Z.geb_leb.
      by destruct (Z.leb_spec (startTime c + day * 86400) (block_timestamp env)); [|lia]. }
    split; [done|]. rewrite vault_after_eq. unfold attested.
    rewrite challengeAt_add_event, !challengeAt_update_eq. fold c. split; [done|].
    change (dayUnlockedAt _ day) with (dayUnlockedAt (set_dayUnlocked day true c) day).
    rewrite dayUnlockedAt_set. by rewrite decide_True.
Qed.

Lemma C6_attestation_time_gate_witness :
  let s := Scenario.created100.1 in
  let c := challengeAt 1 s in
  let env := Scenario.at_time Scenario.attester (Scenario.day 2) in
  let early := Scenario.at_time Scenario.attester (Scenario.day 2 - 1) in
  (reachable (Token := LedgerToken) s /\ valid_env env /\ valid_env early /\
   user c <> 0 /\ finalized c = false /\ msg_sender env = verifier s /\
   0 <= 2 < durationDays c /\ dayUnlockedAt c 2 = false /\
   block_timestamp env = startTime c + 2 * ONE_DAY) /\
  outcome (transact (Token := LedgerToken) env (attestCompletion env 1 2) s Scenario.created100.2)
  = inr tt /\
  outcome (transact (Token := LedgerToken) early (attestCompletion early 1 2) s Scenario.created100.2)
  = inl DAY_NOT_STARTED.
Proof.
  intros s c env early.
  assert (valid_env env) as Henv by (vm_compute; repeat split; discriminate).
  assert (valid_env early) as Hearly by (vm_compute; repeat split; discriminate).
  assert (user c <> 0) as Hu by (vm_compute; discriminate).
  assert (finalized c = false) as Hfin by (vm_compute; reflexivity).
  assert (msg_sender env = verifier s) as Hv by (vm_compute; reflexivity).
  assert (0 <= 2 < durationDays c) as Hday by (vm_compute; split; [discriminate|reflexivity]).
  assert (dayUnlockedAt c 2 = false) as Hlocked by (vm_compute; reflexivity).
  assert (block_timestamp env = startTime c + 2 * ONE_DAY) as Hnow by (vm_compute; reflexivity).
  split; [exact (conj created100_reachable (conj Henv (conj Hearly (conj Hu (conj Hfin
            (conj Hv (conj Hday (conj Hlocked Hnow))))))))|].
  split.
  - destruct (C6_attestation_time_gate (Token := LedgerToken) s env 1 2 Scenario.created100.2
                created100_reachable Henv Hu Hfin Hv Hday Hlocked) as (_ & _ & Hon).
    destruct Hon as [Hr _]; [vm_compute; discriminate|].
    exact (f_equal outcome Hr).
  - destruct (C6_attestation_time_gate (Token := LedgerToken) s early 1 2 Scenario.created100.2
                created100_reachable Hearly Hu Hfin Hv Hday Hlocked) as (Hbefore & _).
    exact (f_equal outcome (Hbefore ltac:(vm_compute; reflexivity)
                                    ltac:(vm_compute; discriminate))).
Defined.

(** C6 as stated fails when [startTime + dayIndex * 1 days] exceeds
    [2^256 - 1]: for the challenge that starts at the last representable
    instant, day 1 lies in the future, all the other preconditions hold, and
    the attestation fails with the arithmetic panic, not with
    [DAY_NOT_STARTED]. *)
Lemma C6_counterexample :
  let s := Scenario.createdLate.1 in
  let c := challengeAt 1 s in
  let env := Scenario.at_time Scenario.attester 1000 in
  (user c <> 0 /\ finalized c = false /\ msg_sender env = verifier s /\
   1 < durationDays c /\ dayUnlockedAt c 1 = false /\
   block_timestamp env < startTime c + 1 * ONE_DAY) /\
  outcome (transact (Token := LedgerToken) env (attestCompletion env 1 1) s Scenario.createdLate.2)
  = inl PANIC_ARITHMETIC /\
  outcome (transact (Token := LedgerToken) env (attestCompletion env 1 1) s Scenario.createdLate.2)
  <> inl DAY_NOT_STARTED.
Proof. vm_compute. repeat split; discriminate. Qed.

(** Days need not be attested in order: in the scenario day 2 can be
    attested first, and day 0 after it. *)
Example attest_out_of_order :
  let env := Scenario.at_time Scenario.attester (Scenario.day 2) in
  let r2 := transact (Token := LedgerToken) env (attestCompletion env 1 2)
              Scenario.created100.1 Scenario.created100.2 in
  let r0 := transact (Token := LedgerToken) env (attestCompletion env 1 0)
              (vault_after r2) (token_after r2) in
  outcome r2 = inr tt /\ outcome r0 = inr tt /\
  released (challengeAt 1 (vault_after r0)) = 28.
Proof. vm_compute. repeat split. Qed.

(** ** Creation *)

(** C7. [createChallenge] with [durationDays = 0] and otherwise valid
    arguments (a non-zero beneficiary and a positive amount) is the revert
    [DURATION_ZERO]; and every call that fails a check on beneficiary,
    amount, duration or start time is a revert with a validation error,
    reached before any storage write and any call to the token, so the
    transaction leaves storage and token as they were. *)
Theorem C7_create_validation_has_no_effect
    (env : Env) (b : address) (amount st d : Z) (s : Vault) :
  (b <> 0 -> 0 < amount -> d = 0 ->
   createChallenge env b amount st d s = Revert DURATION_ZERO) /\
  (b = 0 \/ amount <= 0 \/ d <= 0 \/ st < block_timestamp env ->
   exists e,
     createChallenge env b amount st d s = Revert e /\
     validation_error e = true /\
     forall (T : Type) (Token : IERC20 T) (t : T),
       transact env (createChallenge env b amount st d) s t = (inl e, s, t)).
Proof.
  split.
  - intros Hb Ha ->. rewrite createChallenge_checks by lia.
    destruct (Z.eqb_spec b 0); [done|].
    by destruct (Z.gtb_spec amount 0); [|lia].
  - intros Hbad. eexists. split; [by apply createChallenge_checks|]. split.
    + destruct (b =? 0); [done|]. destruct (negb (amount >? 0)); [done|].
      by destruct (negb (d >? 0)).
    + intros T Token t. apply transact_inl. by rewrite createChallenge_checks.
Qed.

Lemma C7_create_validation_has_no_effect_witness :
  let env := Scenario.at_time Scenario.alice 1000 in
  (Scenario.bob <> 0 /\ 0 < 100 /\ 0 = 0) /\
  createChallenge env Scenario.bob 100 1000 0 Scenario.deployed = Revert DURATION_ZERO.
Proof.
  intros env.
  assert (Scenario.bob <> 0) as Hb by (vm_compute; discriminate).
  assert (0 < 100) as Ha by lia.
  split; [exact (conj Hb (conj Ha eq_refl))|].
  exact (proj1 (C7_create_validation_has_no_effect env Scenario.bob 100 1000 0 Scenario.deployed)
           Hb Ha eq_refl).
Defined.

(** When several checks fail at once, the first one in the order of the
    [require] statements names the error: a zero beneficiary is reported
    before a zero duration. *)
Example createChallenge_first_failing_check :
  let env := Scenario.at_time Scenario.alice 1000 in
  createChallenge env 0 100 1000 0 Scenario.deployed = Revert BENEFICIARY_ZERO /\
  createChallenge env Scenario.bob 0 1000 0 Scenario.deployed = Revert AMOUNT_ZERO.
Proof. split; reflexivity. Qed.

(** C8. After a successful [createChallenge], the stored challenge has
    [principal = amount > 0], [durationDays > 0] and
    [dailySlice = floor (amount / durationDays)]; so
    [dailySlice * durationDays <= principal], and the difference is the
    remainder of the division, below [durationDays]. *)
Theorem C8_daily_slice_is_floor
    {T : Type} {Token : IERC20 T}
    (env : Env) (b : address) (amount st d : Z) (s : Vault) (t : T) (id : Z) :
  let r := transact env (createChallenge env b amount st d) s t in
  outcome r = inr id ->
  let c := challengeAt id (vault_after r) in
  0 < amount /\ 0 < d /\
  principal c = amount /\ durationDays c = d /\
  dailySlice c = amount / d /\
  dailySlice c * d <= amount < (dailySlice c + 1) * d /\
  dailySlice c * durationDays c <= principal c /\
  principal c - dailySlice c * durationDays c = amount mod d /\
  0 <= amount mod d < d.
Proof.
  intros r Hr c. subst r c.
  apply transact_success in Hr as (s' & t' & Hexec & ->). rewrite vault_after_eq.
  apply createChallenge_success in Hexec as (_ & Ha & Hd & _ & _ & _ & _ & ->).
  unfold challengeAt, created. simpl. rewrite lookup_insert_eq. simpl.
  destruct (slice_times_duration amount d) as (H0 & Hle & Hrem & Hlt); [lia..|].
  pose proof (Z.mod_pos_bound amount d Hd). repeat split; lia.
Qed.

Lemma C8_daily_slice_is_floor_witness :
  let env := Scenario.at_time Scenario.alice 1000 in
  let r := transact (Token := LedgerToken) env (createChallenge env Scenario.bob 100 1000 7)
             Scenario.deployed Scenario.funded in
  outcome r = inr 1 /\
  dailySlice (challengeAt 1 (vault_after r)) = 100 / 7 /\
  principal (challengeAt 1 (vault_after r))
  - dailySlice (challengeAt 1 (vault_after r)) * durationDays (challengeAt 1 (vault_after r))
  = 100 mod 7.
Proof.
  intros env r.
  assert (outcome r = inr 1) as Hr by (vm_compute; reflexivity).
  split; [exact Hr|].
  destruct (C8_daily_slice_is_floor (Token := LedgerToken)
              env Scenario.bob 100 1000 7 Scenario.deployed Scenario.funded 1 Hr)
    as (_ & _ & _ & _ & Hslice & _ & _ & Hrem & _).
  exact (conj Hslice Hrem).
Defined.

(** ** Challenges with a zero slice *)

(** C10, as amended. For a challenge created with [amount < durationDays],
    whatever transactions follow: [dailySlice] and [released] are 0; a
    successful [attestCompletion] leaves [released] at 0; [claimUnlocked]
    always fails and changes nothing, with [NOTHING_TO_CLAIM] when the caller
    is the challenge's user and with [NOT_USER] otherwise; and a successful
    [finalize] transfers the whole principal to the beneficiary, whatever
    days were attested. *)
Theorem C10_zero_slice
    {T : Type} {Token : IERC20 T}
    (s0 : Vault) (env0 : Env) (b : address) (amount st d : Z) (t0 : T) (id : Z) (s : Vault) :
  let r0 := transact env0 (createChallenge env0 b amount st d) s0 t0 in
  let c := challengeAt id s in
  reachable (T := T) s0 ->
  is_uint256 amount -> is_uint256 st -> is_uint256 d ->
  outcome r0 = inr id -> amount < d ->
  evolves (T := T) (vault_after r0) s ->
  (user c = msg_sender env0 /\ beneficiary c = b /\ principal c = amount) /\
  dailySlice c = 0 /\ released c = 0 /\
  (forall env day (t : T),
     let r := transact env (attestCompletion env id day) s t in
     outcome r = inr tt ->
     released (challengeAt id (vault_after r)) = released c + 0) /\
  (forall env (t : T),
     transact env (claimUnlocked env id) s t =
     (inl (if user c =? msg_sender env then NOTHING_TO_CLAIM else NOT_USER), s, t)) /\
  (forall env (t : T),
     let r := transact env (finalize env id) s t in
     outcome r = inr tt ->
     transfer (this env) b amount t = Some (true, token_after r) /\
     penalized (challengeAt id (vault_after r)) = amount /\
     events (vault_after r) = events s ++ [Finalized id amount]).
Proof.
  intros r0 c Hreach Ha Hst Hd Hr0 Hsmall Hev.
  pose proof (reachable_ok s0 Hreach) as Hok0.
  apply transact_success in Hr0 as (s1 & t1 & Hexec & Htr).
  subst r0. rewrite Htr, vault_after_eq in Hev.
  destruct (createChallenge_done _ _ _ _ _ _ _ _ _ _ _ Hok0 Ha Hst Hd Hexec) as (Hok1 & Hc1).
  destruct (evolves_kept s1 s id _ Hok1 Hc1 Hev) as (Hok & c2 & Hc2 & Hkept).
  pose proof (challengeAt_Some _ _ _ Hc2) as Hc. fold c in Hc. subst c2.
  destruct Hkept as [Hku Hkb Hkp _ Hkd Hks _ _]. simpl in Hku, Hkb, Hkp, Hkd, Hks.
  pose proof (ok_challenges s Hok id c Hc2) as Hcok.
  assert (dailySlice c = 0) as Hslice.
  { rewrite Hks. apply Z.div_small. destruct Ha. lia. }
  assert (released c = 0) as Hrel.
  { destruct Hcok as [_ _ _ _ Hr Hpaid Hacc _ _]. rewrite Hslice in Hacc. lia. }
  split; [done|]. split; [done|]. split; [done|]. split; [|split].
  - intros env day t r Hr. subst r.
    apply transact_success in Hr as (s' & t' & Hr & ->). rewrite vault_after_eq.
    apply attestCompletion_success in Hr as (_ & _ & _ & _ & _ & _ & _ & -> & _).
    unfold attested. rewrite challengeAt_add_event, !challengeAt_update_eq. fold c.
    simpl. by rewrite Hslice.
  - intros env t. apply transact_inl. rewrite exec_claimUnlocked. cbv zeta. fold c.
    rewrite Hrel. by destruct (user c =? msg_sender env).
  - intros env t r Hr. subst r.
    apply transact_success in Hr as (s' & t' & Hr & ->).
    rewrite vault_after_eq, token_after_eq.
    apply finalize_success in Hr as (u & Hfin & _ & _ & Hsum & _ & _ & Hpay & ->).
    fold c in Hfin, Hsum, Hpay |- *.
    rewrite (sumUnlocked_ok _ _ _ Hcok), Hslice in Hsum. injection Hsum as <-.
    destruct Hcok as [Hp _ _ _ _ _ _ Hpen _]. rewrite Hfin in Hpen.
    rewrite Hkb, Hkp, Z.mul_0_l, Z.sub_0_r in *.
    destruct (Z.gtb_spec amount 0); [|lia].
    split; [done|]. unfold finalized_with, settled.
    rewrite challengeAt_add_event, !challengeAt_update_eq. fold c. simpl.
    split; [lia|done].
Qed.

Lemma C10_zero_slice_witness :
  let env0 := Scenario.at_time Scenario.alice 1000 in
  let r0 := transact (Token := LedgerToken) env0 (createChallenge env0 Scenario.bob 3 1000 7)
              Scenario.deployed Scenario.funded in
  let c := challengeAt 1 (vault_after r0) in
  (reachable (Token := LedgerToken) Scenario.deployed /\
   is_uint256 3 /\ is_uint256 1000 /\ is_uint256 7 /\ outcome r0 = inr 1 /\ 3 < 7) /\
  dailySlice c = 0 /\ released c = 0 /\
  transact (Token := LedgerToken) env0 (claimUnlocked env0 1) (vault_after r0) (token_after r0) =
  (inl (if user c =? msg_sender env0 then NOTHING_TO_CLAIM else NOT_USER),
   vault_after r0, token_after r0).
Proof.
  intros env0 r0 c.
  assert (is_uint256 3) as H3 by (vm_compute; split; discriminate).
  assert (is_uint256 1000) as H1000 by (vm_compute; split; discriminate).
  assert (is_uint256 7) as H7 by (vm_compute; split; discriminate).
  assert (outcome r0 = inr 1) as Hr0 by (vm_compute; reflexivity).
  assert (3 < 7) as Hlt by lia.
  split; [exact (conj deployed_reachable (conj H3 (conj H1000 (conj H7 (conj Hr0 Hlt)))))|].
  destruct (C10_zero_slice (Token := LedgerToken)
              Scenario.deployed env0 Scenario.bob 3 1000 7 Scenario.funded 1 (vault_after r0)
              deployed_reachable H3 H1000 H7 Hr0 Hlt (evolves_refl _))
    as (_ & Hslice & Hrel & _ & Hclaim & _).
  exact (conj Hslice (conj Hrel (Hclaim env0 (token_after r0)))).
Defined.

(** C10 as stated fails for a caller that is not the challenge's user: on
    the zero-slice challenge of the scenario, [bob]'s [claimUnlocked] is
    rejected with [NOT_USER], not with [NOTHING_TO_CLAIM]. *)
Lemma C10_counterexample :
  let env := Scenario.at_time Scenario.bob 1000 in
  (principal (challengeAt 1 Scenario.created3.1) < durationDays (challengeAt 1 Scenario.created3.1) /\
   dailySlice (challengeAt 1 Scenario.created3.1) = 0) /\
  outcome (transact (Token := LedgerToken) env (claimUnlocked env 1)
             Scenario.created3.1 Scenario.created3.2) = inl NOT_USER /\
  outcome (transact (Token := LedgerToken) env (claimUnlocked env 1)
             Scenario.created3.1 Scenario.created3.2) <> inl NOTHING_TO_CLAIM.
Proof. vm_compute. repeat split. discriminate. Qed.

(** * Further properties of the contract *)

(** ** Roles *)

(** X1. In one transaction the owner and the token address never change,
    and the verifier changes only when the transaction is a [setVerifier]
    sent by the owner; the new verifier is then the argument. *)
Theorem X1_roles_change_only_by_owner
    {T : Type} {Token : IERC20 T} (env : Env) (tx : Tx) (s : Vault) (t : T) :
  let s' := vault_after (transact env (runTx env tx) s t) in
  owner s' = owner s /\ USDC s' = USDC s /\
  (verifier s' <> verifier s ->
   exists v, tx = Tx_setVerifier v /\ msg_sender env = owner s /\ verifier s' = v).
Proof.
  intros s'. subst s'. unfold transact.
  destruct (exec (this env) (runTx env tx s) t) as [e|[[a s'] t']] eqn:Hexec;
    rewrite vault_after_eq; [done|].
  destruct tx as [v|b amount st d|id day|id|id].
  - apply setVerifier_success in Hexec as (Hown & -> & _). simpl. eauto 6.
  - rewrite exec_runTx_create in Hexec.
    destruct (exec _ (createChallenge _ _ _ _ _ _) _) as [|[[id1 s1] t1]] eqn:Hcr; [done|].
    simplify_eq. by apply createChallenge_success in Hcr as (_ & _ & _ & _ & _ & _ & _ & ->).
  - by apply attestCompletion_success in Hexec as (_ & _ & _ & _ & _ & _ & _ & -> & _).
  - by apply claimUnlocked_success in Hexec as (_ & _ & _ & ->).
  - by apply finalize_success in Hexec as (u & _ & _ & _ & _ & _ & _ & _ & ->).
Qed.

(** X2. [setVerifier] by anyone but the owner is rejected with [NOT_OWNER]
    and changes nothing. By the owner it replaces the verifier and leaves
    the challenges and the log as they are; from then on every
    [attestCompletion] by a caller other than the new verifier, the former
    verifier included, is rejected with [NOT_VERIFIER]. *)
Theorem X2_setVerifier_rotates_the_attester
    {T : Type} {Token : IERC20 T} (env : Env) (v : address) (s : Vault) (t : T) :
  (msg_sender env <> owner s ->
   transact env (setVerifier env v) s t = (inl NOT_OWNER, s, t)) /\
  (msg_sender env = owner s ->
   let r := transact env (setVerifier env v) s t in
   outcome r = inr tt /\ token_after r = t /\
   verifier (vault_after r) = v /\
   challenges (vault_after r) = challenges s /\ events (vault_after r) = events s /\
   forall env' id day (t' : T),
     msg_sender env' <> v ->
     transact env' (attestCompletion env' id day) (vault_after r) t' =
     (inl NOT_VERIFIER, vault_after r, t')).
Proof.
  split.
  - intros Hne. apply transact_inl. rewrite exec_setVerifier.
    by destruct (Z.eqb_spec (msg_sender env) (owner s)).
  - intros Hown r.
    assert (r = (inr tt, set_verifier v s, t)) as ->.
    { apply transact_inr. rewrite exec_setVerifier. by rewrite Hown, Z.eqb_refl. }
    rewrite vault_after_eq, token_after_eq, outcome_eq. do 5 (split; [done|]).
    intros env' id day t' Hne. apply transact_inl. rewrite exec_attestCompletion.
    cbv zeta. simpl. by destruct (Z.eqb_spec (msg_sender env') v).
Qed.

Lemma X2_setVerifier_rotates_the_attester_witness :
  let env := Scenario.at_time Scenario.admin 1000 in
  let r := transact (Token := LedgerToken) env (setVerifier env Scenario.bob)
             Scenario.created100.1 Scenario.created100.2 in
  let old := Scenario.at_time Scenario.attester (Scenario.day 1) in
  (msg_sender env = owner Scenario.created100.1 /\ msg_sender old <> Scenario.bob) /\
  verifier (vault_after r) = Scenario.bob /\
  transact (Token := LedgerToken) old (attestCompletion old 1 0) (vault_after r) (token_after r) =
  (inl NOT_VERIFIER, vault_after r, token_after r).
Proof.
  intros env r old.
  assert (msg_sender env = owner Scenario.created100.1) as Hown by (vm_compute; reflexivity).
  assert (msg_sender old <> Scenario.bob) as Hne by (vm_compute; discriminate).
  split; [exact (conj Hown Hne)|].
  destruct (X2_setVerifier_rotates_the_attester (Token := LedgerToken)
              env Scenario.bob Scenario.created100.1 Scenario.created100.2) as [_ Hok].
  destruct (Hok Hown) as (_ & _ & Hv & _ & _ & Hrej).
  exact (conj Hv (Hrej old 1 0 (token_after r) Hne)).
Defined.

(** ** Identifiers *)

Section Identifiers.
Context {T : Type} `{Token : IERC20 T}.

Lemma transact_dense env tx s (t : T) :
  ids_dense s -> ids_dense (vault_after (transact env (runTx env tx) s t)).
Proof.
  intros Hd. unfold transact.
  destruct (exec (this env) (runTx env tx s) t) as [e|[[a s'] t']] eqn:Hexec;
    rewrite vault_after_eq; [done|].
  assert (forall id' f e, ids_dense (add_event e (update_challenge id' f s))) as Hupd.
  { intros id' f e id Hid. rewrite lookup_update_challenge. case_decide; [done|]. by apply Hd. }
  destruct tx as [v|b amount st d|id day|id|id].
  - by apply setVerifier_success in Hexec as (_ & -> & _).
  - rewrite exec_runTx_create in Hexec.
    destruct (exec _ (createChallenge _ _ _ _ _ _) _) as [|[[id1 s1] t1]] eqn:Hcr; [done|].
    simplify_eq. apply createChallenge_success in Hcr as (_ & _ & _ & _ & -> & _ & _ & ->).
    intros id Hid. simpl in *. rewrite lookup_insert. case_decide; [done|]. apply Hd. lia.
  - apply attestCompletion_success in Hexec as (_ & _ & _ & _ & _ & _ & _ & -> & _).
    unfold attested. rewrite update_challenge_twice. apply Hupd.
  - apply claimUnlocked_success in Hexec as (_ & _ & _ & ->). apply Hupd.
  - apply finalize_success in Hexec as (u & _ & _ & _ & _ & _ & _ & _ & ->).
    unfold finalized_with, settled. rewrite update_challenge_twice. apply Hupd.
Qed.

Lemma reachable_dense s : reachable (T := T) s -> ids_dense s.
Proof.
  induction 1 as [deployer usdc v s _ _ _ Hs|env tx s t _ IH Henv Htx].
  - unfold constructor in Hs. destruct (usdc =? 0); [done|]. injection Hs as <-.
    intros id. simpl. lia.
  - by apply transact_dense.
Qed.
End Identifiers.

(** X3. Identifiers are handed out in order, starting at 1: in every
    reachable state the stored challenges are exactly those with
    [1 <= id <= nextChallengeId]; a successful [createChallenge] returns
    [nextChallengeId + 1], writes a slot that was empty and advances
    [nextChallengeId] by one. *)
Theorem X3_identifiers_in_order {T : Type} {Token : IERC20 T} (s : Vault) :
  reachable (T := T) s ->
  (forall id, is_Some (challenges s !! id) <-> 1 <= id <= nextChallengeId s) /\
  (forall env b amount st d (t : T) id,
     let r := transact env (createChallenge env b amount st d) s t in
     outcome r = inr id ->
     id = nextChallengeId s + 1 /\ challenges s !! id = None /\
     nextChallengeId (vault_after r) = id /\
     user (challengeAt id (vault_after r)) = msg_sender env /\
     beneficiary (challengeAt id (vault_after r)) = b).
Proof.
  intros Hreach. pose proof (reachable_ok s Hreach) as Hok.
  pose proof (reachable_dense s Hreach) as Hdense. split.
  - intros id. split; [intros [c Hc]; by apply (ok_ids s Hok id c)|apply Hdense].
  - intros env b amount st d t id r Hr. subst r.
    apply transact_success in Hr as (s' & t' & Hexec & ->). rewrite vault_after_eq.
    apply createChallenge_success in Hexec as (_ & _ & _ & _ & -> & _ & _ & ->).
    split; [done|]. split.
    + destruct (challenges s !! _) as [c|] eqn:Hc; [|done]. apply (ok_ids s Hok) in Hc. lia.
    + unfold challengeAt. simpl. by rewrite lookup_insert_eq.
Qed.

Lemma X3_identifiers_in_order_witness :
  reachable (Token := LedgerToken) Scenario.created100.1 /\
  (is_Some (challenges Scenario.created100.1 !! 1) <->
   1 <= 1 <= nextChallengeId Scenario.created100.1).
Proof.
  split; [exact created100_reachable|].
  exact (proj1 (X3_identifiers_in_order (Token := LedgerToken)
                  Scenario.created100.1 created100_reachable) 1).
Defined.

(** X4. An identifier that was never handed out: the views return the zero
    record and [false]; [attestCompletion] by the verifier and [finalize]
    by anyone are rejected with [NOT_FOUND]; [claimUnlocked] is rejected
    with [NOT_USER] (with [NOTHING_TO_CLAIM] for the zero address as
    caller). None of them changes anything. *)
Theorem X4_unknown_identifier {T : Type} {Token : IERC20 T} (s : Vault) (id : Z) :
  reachable (T := T) s -> ~ (1 <= id <= nextChallengeId s) ->
  getChallenge id s = (0, 0, 0, 0, 0, 0, 0, 0, false) /\
  (forall day, isDayUnlocked id day s = false) /\
  (forall env day (t : T),
     msg_sender env = verifier s ->
     transact env (attestCompletion env id day) s t = (inl NOT_FOUND, s, t)) /\
  (forall env (t : T),
     transact env (finalize env id) s t = (inl NOT_FOUND, s, t)) /\
  (forall env (t : T),
     transact env (claimUnlocked env id) s t =
     (inl (if 0 =? msg_sender env then NOTHING_TO_CLAIM else NOT_USER), s, t)).
Proof.
  intros Hreach Hid. pose proof (reachable_ok s Hreach) as Hok.
  assert (challengeAt id s = zeroChallenge) as Hzero.
  { apply challengeAt_None. destruct (challenges s !! id) as [c|] eqn:Hc; [|done].
    apply (ok_ids s Hok) in Hc. lia. }
  split; [|split; [|split; [|split]]].
  - unfold getChallenge. by rewrite Hzero.
  - intros day. unfold isDayUnlocked. by rewrite Hzero.
  - intros env day t Hv. apply transact_inl. rewrite exec_attestCompletion. cbv zeta.
    by rewrite Hzero, Hv, Z.eqb_refl.
  - intros env t. apply transact_inl. rewrite exec_finalize. cbv zeta. by rewrite Hzero.
  - intros env t. apply transact_inl. rewrite exec_claimUnlocked. cbv zeta.
    rewrite Hzero. change (user zeroChallenge) with 0.
    change (released zeroChallenge) with 0. by destruct (0 =? msg_sender env).
Qed.

Lemma X4_unknown_identifier_witness :
  let env := Scenario.at_time Scenario.bob (Scenario.day 7) in
  (reachable (Token := LedgerToken) Scenario.created100.1 /\
   ~ (1 <= 2 <= nextChallengeId Scenario.created100.1)) /\
  transact (Token := LedgerToken) env (finalize env 2) Scenario.created100.1 Scenario.created100.2 =
  (inl NOT_FOUND, Scenario.created100.1, Scenario.created100.2).
Proof.
  intros env.
  assert (~ (1 <= 2 <= nextChallengeId Scenario.created100.1)) as Hid
    by (vm_compute; intros [_ H]; apply H; reflexivity).
  split; [exact (conj created100_reachable Hid)|].
  destruct (X4_unknown_identifier (Token := LedgerToken) Scenario.created100.1 2
              created100_reachable Hid) as (_ & _ & _ & Hfin & _).
  exact (Hfin env Scenario.created100.2).
Defined.

(** ** Days *)

(** X5. Day indices are bounded by [durationDays]: the verifier's
    attestation of a day at or beyond [durationDays] of a stored,
    non-finalized challenge is rejected with [BAD_DAY] and changes nothing;
    so in every reachable state [isDayUnlocked] holds only for issued
    identifiers and days below [durationDays], and the unlocked days are at
    most [durationDays] many. *)
Theorem X5_day_index_bounds {T : Type} {Token : IERC20 T} (s : Vault) (id : Z) :
  let c := challengeAt id s in
  reachable (T := T) s ->
  (forall env day (t : T),
     msg_sender env = verifier s -> finalized c = false -> user c <> 0 ->
     durationDays c <= day ->
     transact env (attestCompletion env id day) s t = (inl BAD_DAY, s, t)) /\
  (forall day, isDayUnlocked id day s = true ->
               1 <= id <= nextChallengeId s /\ 0 <= day < durationDays c) /\
  Z.of_nat (size (unlockedDays c)) <= durationDays c.
Proof.
  intros c Hreach. pose proof (reachable_ok s Hreach) as Hok. split; [|split].
  - intros env day t Hv Hfin Hu Hday. apply transact_inl.
    rewrite exec_attestCompletion. cbv zeta. fold c. rewrite Hv, Z.eqb_refl, Hfin. simpl.
    destruct (Z.eqb_spec (user c) 0); [done|].
    by destruct (Z.ltb_spec day (durationDays c)); [lia|].
  - intros day Hday. unfold isDayUnlocked in Hday. fold c in Hday.
    destruct (challenges s !! id) as [c0|] eqn:Hc.
    + pose proof (challengeAt_Some _ _ _ Hc) as Heq. fold c in Heq. subst c0.
      split; [by apply (ok_ids s Hok id c)|].
      apply (ok_days id c _ (ok_challenges s Hok id c Hc)). by apply elem_of_unlockedDays.
    + unfold c in Hday. by rewrite (challengeAt_None _ _ Hc) in Hday.
  - destruct (challenges s !! id) as [c0|] eqn:Hc.
    + pose proof (challengeAt_Some _ _ _ Hc) as Heq. fold c in Heq. subst c0.
      destruct (ok_challenges s Hok id c Hc) as [_ Hd _ Hdays _ _ _ _ _].
      apply size_unlockedDays_le; [lia|done].
    + unfold c. rewrite (challengeAt_None _ _ Hc), unlockedDays_zero, size_empty. done.
Qed.

Lemma X5_day_index_bounds_witness :
  let env := Scenario.at_time Scenario.attester (Scenario.day 9) in
  let s := Scenario.created100.1 in
  (reachable (Token := LedgerToken) s /\ msg_sender env = verifier s /\
   finalized (challengeAt 1 s) = false /\ user (challengeAt 1 s) <> 0 /\
   durationDays (challengeAt 1 s) <= 7) /\
  transact (Token := LedgerToken) env (attestCompletion env 1 7) s Scenario.created100.2 =
  (inl BAD_DAY, s, Scenario.created100.2).
Proof.
  intros env s.
  assert (msg_sender env = verifier s) as Hv by (vm_compute; reflexivity).
  assert (finalized (challengeAt 1 s) = false) as Hfin by (vm_compute; reflexivity).
  assert (user (challengeAt 1 s) <> 0) as Hu by (vm_compute; discriminate).
  assert (durationDays (challengeAt 1 s) <= 7) as Hd by (vm_compute; discriminate).
  split; [exact (conj created100_reachable (conj Hv (conj Hfin (conj Hu Hd))))|].
  destruct (X5_day_index_bounds (Token := LedgerToken) s 1 created100_reachable) as (Hbad & _).
  exact (Hbad env 7 Scenario.created100.2 Hv Hfin Hu Hd).
Defined.

(** X6. [attestCompletion] and [setVerifier] never call the token: their
    runs complete or revert without a call, so the token's state is the same
    after the transaction, whatever the arguments and the outcome. *)
Theorem X6_attestation_moves_no_tokens (env : Env) (id day : Z) (v : address) (s : Vault) :
  makes_no_call (attestCompletion env id day s) /\
  makes_no_call (setVerifier env v s) /\
  forall (T : Type) (Token : IERC20 T) (t : T),
    token_after (transact env (attestCompletion env id day) s t) = t /\
    token_after (transact env (setVerifier env v) s t) = t.
Proof.
  split; [|split].
  - unfold attestCompletion. mstep.
    destruct (msg_sender env =? verifier s); [|done].
    destruct (negb (finalized _)); [|done]. destruct (negb (user _ =? 0)); [|done].
    destruct (day <? _); [|done]. destruct (negb (dayUnlockedAt _ _)); [|done].
    destruct (mul256 day ONE_DAY); [|done]. mstep.
    destruct (add256 _ _); [|done]. mstep.
    destruct (block_timestamp env >=? _); [|done]. mstep.
    destruct (add256 _ _); [|done]. by mstep.
  - unfold setVerifier. mstep. by destruct (msg_sender env =? owner s).
  - intros T Token t. split.
    + unfold transact.
      destruct (exec _ (attestCompletion _ _ _ _) _) as [e|[[a s'] t']] eqn:Hexec; [done|].
      by apply attestCompletion_success in Hexec as (_ & _ & _ & _ & _ & _ & _ & _ & ->).
    + unfold transact.
      destruct (exec _ (setVerifier _ _ _) _) as [e|[[a s'] t']] eqn:Hexec; [done|].
      by apply setVerifier_success in Hexec as (_ & _ & ->).
Qed.

(** ** Creation and finalization, step by step *)

(** X7. [createChallenge] with arguments that pass the checks (and an
    identifier counter that can still advance) writes the record first and
    then makes one call, [transferFrom (msg.sender, this, amount)], on the
    storage that already holds the record; on [true] it emits
    [ChallengeCreated] and returns the new identifier, on [false] it reverts
    with [TRANSFER_FROM_FAIL]. So a failed pull leaves storage and token as
    they were (no record, the identifier not consumed), and a successful one
    stores the record with [released = penalized = 0], not finalized. *)
Theorem X7_create_writes_then_pulls
    (env : Env) (b : address) (amount st d : Z) (s : Vault) :
  let id := nextChallengeId s + 1 in
  let record :=
    created_record (msg_sender env) b amount st d (amount / d) (challengeAt id s) in
  let written :=
    mkVault (USDC s) (verifier s) (owner s) id (<[id := record]> (challenges s)) (events s) in
  b <> 0 -> 0 < amount -> 0 < d -> block_timestamp env <= st -> id <= MAX_UINT256 ->
  (exists k,
     createChallenge env b amount st d s =
     External (Call_transferFrom (USDC s) (msg_sender env) (this env) amount) written k /\
     (forall s1, k true s1 =
        Done id (add_event (ChallengeCreated id (msg_sender env) b amount st d) s1)) /\
     (forall s1, k false s1 = Revert TRANSFER_FROM_FAIL)) /\
  (forall (T : Type) (Token : IERC20 T) (t : T),
     (forall t1, transferFrom (this env) (msg_sender env) (this env) amount t <> Some (true, t1)) ->
     exists e, transact env (createChallenge env b amount st d) s t = (inl e, s, t) /\
               transfer_error e = true) /\
  (forall (T : Type) (Token : IERC20 T) (t t' : T),
     transferFrom (this env) (msg_sender env) (this env) amount t = Some (true, t') ->
     transact env (createChallenge env b amount st d) s t =
     (inr id, created env id b amount st d (amount / d) s, t')).
Proof.
  intros id record written Hb Ha Hd Hst Hid.
  assert (add256 (nextChallengeId s) 1 = Some id) as Hadd by by apply add256_Some.
  assert (div256 amount d = Some (amount / d)) as Hdiv by (apply div256_Some; split; [done|lia]).
  split; [|split].
  - unfold createChallenge. mstep.
    destruct (Z.eqb_spec b 0); [done|]. simpl negb. cbv iota.
    destruct (Z.gtb_spec amount 0); [|lia]. destruct (Z.gtb_spec d 0); [|lia].
    destruct (Z.geb_spec st (block_timestamp env)); [|lia].
    rewrite Hadd. mstep. rewrite Hdiv. mstep. rewrite created_chain.
    eexists. split; [reflexivity|]. split; reflexivity.
  - intros T Token t Hfail.
    assert (exec (this env) (createChallenge env b amount st d s) t =
            match transferFrom (this env) (msg_sender env) (this env) amount t with
            | None => inl CALLEE_REVERTED
            | Some (true, t') => inr (id, created env id b amount st d (amount / d) s, t')
            | Some (false, _) => inl TRANSFER_FROM_FAIL
            end) as Hexec.
    { rewrite exec_createChallenge, Hadd, Hdiv.
      destruct (Z.eqb_spec b 0); [done|]. destruct (Z.gtb_spec amount 0); [|lia].
      destruct (Z.gtb_spec d 0); [|lia].
      by destruct (Z.geb_spec st (block_timestamp env)); [|lia]. }
    destruct (transferFrom _ _ _ _ t) as [[[] t1]|] eqn:Htr.
    + by destruct (Hfail t1).
    + exists TRANSFER_FROM_FAIL. split; [by apply transact_inl|done].
    + exists CALLEE_REVERTED. split; [by apply transact_inl|done].
  - intros T Token t t' Hpull. apply transact_inr.
    rewrite exec_createChallenge, Hadd, Hdiv, Hpull.
    destruct (Z.eqb_spec b 0); [done|]. destruct (Z.gtb_spec amount 0); [|lia].
    destruct (Z.gtb_spec d 0); [|lia].
    by destruct (Z.geb_spec st (block_timestamp env)); [|lia].
Qed.

Lemma X7_create_writes_then_pulls_witness :
  let env := Scenario.at_time Scenario.alice 1000 in
  (Scenario.bob <> 0 /\ 0 < 100 /\ 0 < 7 /\ block_timestamp env <= 1000 /\
   nextChallengeId Scenario.deployed + 1 <= MAX_UINT256) /\
  exists e,
    transact (Token := RefusingToken) env (createChallenge env Scenario.bob 100 1000 7)
      Scenario.deployed tt = (inl e, Scenario.deployed, tt) /\
    transfer_error e = true.
Proof.
  intros env.
  assert (Scenario.bob <> 0) as Hb by (vm_compute; discriminate).
  assert (0 < 100) as Ha by lia.
  assert (0 < 7) as Hd by lia.
  assert (block_timestamp env <= 1000) as Hst by (vm_compute; discriminate).
  assert (nextChallengeId Scenario.deployed + 1 <= MAX_UINT256) as Hid
    by (vm_compute; discriminate).
  split; [exact (conj Hb (conj Ha (conj Hd (conj Hst Hid))))|].
  destruct (X7_create_writes_then_pulls env Scenario.bob 100 1000 7 Scenario.deployed
              Hb Ha Hd Hst Hid) as (_ & Hfail & _).
  apply (Hfail unit RefusingToken tt). intros t1. discriminate.
Defined.

(** X8. [finalize] on a stored, non-finalized challenge of a reachable
    state, with [ending = startTime + durationDays * 1 days]: before
    [ending] (when representable) it is rejected with [NOT_ENDED]; from
    [ending] on, the internal arithmetic never panics, the remainder is
    [principal] minus the unlocked slices, and the outcome is decided by the
    token alone: with a positive remainder one [transfer] to the beneficiary,
    whose failure reverts the whole transaction (nothing changes, so it can
    be retried); with a zero remainder no call at all. *)
Theorem X8_finalize_gate_and_rollback
    {T : Type} {Token : IERC20 T} (s : Vault) (env : Env) (id : Z) (t : T) :
  let c := challengeAt id s in
  let ending := startTime c + durationDays c * ONE_DAY in
  let remainder := principal c - unlockedSlices c in
  let r := transact env (finalize env id) s t in
  reachable (T := T) s -> valid_env env -> user c <> 0 -> finalized c = false ->
  (block_timestamp env < ending -> ending <= MAX_UINT256 -> r = (inl NOT_ENDED, s, t)) /\
  (ending <= block_timestamp env ->
   0 <= remainder /\
   r = if remainder >? 0 then
         match transfer (this env) (beneficiary c) remainder t with
         | Some (true, t') => (inr tt, finalized_with id remainder remainder s, t')
         | Some (false, _) => (inl BENEFICIARY_XFER_FAIL, s, t)
         | None => (inl CALLEE_REVERTED, s, t)
         end
       else (inr tt, finalized_with id remainder remainder s, t)).
Proof.
  intros c ending remainder r Hreach (_ & [_ Hnow] & _) Hu Hfin.
  pose proof (reachable_ok s Hreach) as Hok.
  pose proof (stored_challenge id s (or_introl Hu)) as Hc. fold c in Hc.
  pose proof (ok_challenges s Hok id c Hc) as Hcok.
  destruct (challenge_ok_unlocked_le _ _ _ Hcok) as [Hslice Hle].
  pose proof (sumUnlocked_ok _ _ _ Hcok) as Hsum.
  rewrite <- unlockedSlices_size in Hsum, Hle.
  assert (0 <= unlockedSlices c) as Hnonneg by (rewrite unlockedSlices_size; nia).
  destruct Hcok as [Hp Hd _ _ _ _ _ Hpen Hst]. rewrite Hfin in Hpen.
  assert (exec (this env) (finalize env id s) t =
          match mul256 (durationDays c) ONE_DAY with
          | None => inl PANIC_ARITHMETIC
          | Some len =>
            match add256 (startTime c) len with
            | None => inl PANIC_ARITHMETIC
            | Some ending =>
              if negb (block_timestamp env >=? ending) then inl NOT_ENDED
              else if remainder >? 0 then
                match transfer (this env) (beneficiary c) remainder t with
                | None => inl CALLEE_REVERTED
                | Some (true, t') => inr (tt, finalized_with id remainder remainder s, t')
                | Some (false, _) => inl BENEFICIARY_XFER_FAIL
                end
              else inr (tt, finalized_with id remainder remainder s, t)
            end
          end) as Hexec.
  { rewrite exec_finalize. cbv zeta. fold c. rewrite Hfin, Hsum, Hpen.
    destruct (Z.eqb_spec (user c) 0); [done|].
    destruct (mul256 _ _); [|done]. destruct (add256 (startTime c) _); [|done].
    destruct (negb _); [done|].
    unfold sub256. destruct (Z.leb_spec (unlockedSlices c) (principal c)); [|lia].
    fold remainder. unfold add256.
    destruct (Z.leb_spec (0 + remainder) MAX_UINT256); [|subst remainder; lia].
    by rewrite Z.add_0_l. }
  subst ending. unfold ONE_DAY in *. split.
  - intros Hearly Hrep. subst r. apply transact_inl. rewrite Hexec. unfold mul256, add256.
    destruct (Z.leb_spec (durationDays c * 86400) MAX_UINT256); [|lia].
    destruct (Z.leb_spec (startTime c + durationDays c * 86400) MAX_UINT256); [|lia].
    rewrite Z.geb_leb.
    by destruct (Z.leb_spec (startTime c + durationDays c * 86400) (block_timestamp env)); [lia|].
  - intros Hdue. split; [subst remainder; lia|]. subst r. unfold transact. rewrite Hexec.
    unfold mul256, add256.
    destruct (Z.leb_spec (durationDays c * 86400) MAX_UINT256); [|lia].
    destruct (Z.leb_spec (startTime c + durationDays c * 86400) MAX_UINT256); [|lia].
    rewrite Z.geb_leb.
    destruct (Z.leb_spec (startTime c + durationDays c * 86400) (block_timestamp env)); [|lia].
    simpl negb. cbv iota. destruct (remainder >? 0); [|done].
    by destruct (transfer _ _ _ _) as [[[] t']|].
Qed.

Lemma X8_finalize_gate_and_rollback_witness :
  let env := Scenario.at_time Scenario.bob (Scenario.day 7 - 1) in
  let s := Scenario.attested4.1 in
  (reachable (Token := LedgerToken) s /\ valid_env env /\
   user (challengeAt 1 s) <> 0 /\ finalized (challengeAt 1 s) = false /\
   block_timestamp env < startTime (challengeAt 1 s) + durationDays (challengeAt 1 s) * ONE_DAY) /\
  transact (Token := LedgerToken) env (finalize env 1) s Scenario.attested4.2 =
  (inl NOT_ENDED, s, Scenario.attested4.2).
Proof.
  intros env s.
  assert (valid_env env) as Henv by (vm_compute; repeat split; discriminate).
  assert (user (challengeAt 1 s) <> 0) as Hu by (vm_compute; discriminate).
  assert (finalized (challengeAt 1 s) = false) as Hfin by (vm_compute; reflexivity).
  assert (block_timestamp env <
          startTime (challengeAt 1 s) + durationDays (challengeAt 1 s) * ONE_DAY) as Hearly
    by (vm_compute; reflexivity).
  split; [exact (conj attested4_reachable (conj Henv (conj Hu (conj Hfin Hearly))))|].
  destruct (X8_finalize_gate_and_rollback (Token := LedgerToken) s env 1 Scenario.attested4.2
              attested4_reachable Henv Hu Hfin) as (Hbefore & _).
  exact (Hbefore Hearly ltac:(vm_compute; discriminate)).
Defined.

(** ** A challenge that can never be finalized *)

Section NeverEnds.
Context {T : Type} `{Token : IERC20 T}.

Lemma transact_stays_open env tx s (t : T) id c :
  vault_ok s -> valid_env env -> challenges s !! id = Some c -> finalized c = false ->
  MAX_UINT256 < startTime c + durationDays c * ONE_DAY ->
  finalized (challengeAt id (vault_after (transact env (runTx env tx) s t))) = false.
Proof.
  intros Hok (_ & [_ Hnow] & _) Hc Hfin Hover.
  pose proof (challengeAt_Some _ _ _ Hc) as Hat. unfold transact.
  destruct (exec (this env) (runTx env tx s) t) as [e|[[a s'] t']] eqn:Hexec;
    rewrite vault_after_eq; [by rewrite Hat|].
  assert (forall id' f e, finalized (f c) = false ->
            finalized (challengeAt id (add_event e (update_challenge id' f s))) = false) as Hupd.
  { intros id' f e Hf. rewrite challengeAt_add_event. destruct (decide (id' = id)) as [->|Hne].
    - by rewrite challengeAt_update_eq, Hat.
    - by rewrite challengeAt_update_ne, Hat. }
  destruct tx as [v|b amount st d|id' day|id'|id'].
  - apply setVerifier_success in Hexec as (_ & -> & _). by rewrite <- Hat in Hfin.
  - rewrite exec_runTx_create in Hexec.
    destruct (exec _ (createChallenge _ _ _ _ _ _) _) as [|[[id1 s1] t1]] eqn:Hcr; [done|].
    simplify_eq. apply createChallenge_success in Hcr as (_ & _ & _ & _ & -> & _ & _ & ->).
    unfold challengeAt. simpl. rewrite lookup_insert_ne, Hc; [done|].
    apply (ok_ids s Hok) in Hc. lia.
  - apply attestCompletion_success in Hexec as (_ & _ & _ & _ & _ & _ & _ & -> & _).
    unfold attested. rewrite update_challenge_twice. by apply Hupd.
  - apply claimUnlocked_success in Hexec as (_ & _ & _ & ->). by apply Hupd.
  - destruct (decide (id' = id)) as [->|Hne].
    + apply finalize_success in Hexec as (u & _ & _ & Hended & _). rewrite Hat in Hended. lia.
    + apply finalize_success in Hexec as (u & _ & _ & _ & _ & _ & _ & _ & ->).
      unfold finalized_with, settled.
      by rewrite challengeAt_add_event, !challengeAt_update_ne, Hat.
Qed.

Lemma evolves_stays_open s s' id c :
  vault_ok s -> challenges s !! id = Some c -> finalized c = false ->
  MAX_UINT256 < startTime c + durationDays c * ONE_DAY ->
  evolves (T := T) s s' ->
  vault_ok s' /\
  exists c', challenges s' !! id = Some c' /\ challenge_kept c c' /\ finalized c' = false.
Proof.
  intros Hok Hc Hfin Hover. induction 1 as [s|env tx s s' t _ IH Henv Htx].
  - eauto 6 using challenge_kept_refl.
  - destruct (IH Hok Hc) as (Hok' & c1 & Hc1 & Hk1 & Hfin1).
    split; [by apply transact_ok|].
    destruct (transact_kept env tx s' t id c1 Hok' Hc1) as (c2 & Hc2 & Hk2).
    exists c2. split; [done|]. split; [by eapply challenge_kept_trans|].
    rewrite <- (challengeAt_Some _ _ _ Hc2).
    apply (transact_stays_open env tx s' t id c1); try done.
    by rewrite (kept_startTime _ _ Hk1), (kept_durationDays _ _ Hk1).
Qed.
End NeverEnds.

(** X9. [createChallenge] accepts any start time and duration, but
    [finalize] computes [startTime + durationDays * 1 days] in checked
    arithmetic. For a stored challenge whose end is beyond [2^256 - 1],
    whatever transactions follow, the challenge is never finalized and every
    [finalize] fails with the arithmetic panic (with [NOT_FOUND] for a
    challenge that the zero address created): what is not unlocked by
    attestations stays in the contract. *)
Theorem X9_unrepresentable_end_never_finalizes
    {T : Type} {Token : IERC20 T} (s0 s : Vault) (id : Z) (c : Challenge) :
  reachable (T := T) s0 -> challenges s0 !! id = Some c -> finalized c = false ->
  MAX_UINT256 < startTime c + durationDays c * ONE_DAY ->
  evolves (T := T) s0 s ->
  finalized (challengeAt id s) = false /\
  penalized (challengeAt id s) = 0 /\
  forall env (t : T),
    transact env (finalize env id) s t =
    (inl (if user c =? 0 then NOT_FOUND else PANIC_ARITHMETIC), s, t).
Proof.
  intros Hreach Hc Hfin Hover Hev. pose proof (reachable_ok s0 Hreach) as Hok0.
  destruct (evolves_stays_open s0 s id c Hok0 Hc Hfin Hover Hev)
    as (Hok & c' & Hc' & Hkept & Hfin').
  rewrite (challengeAt_Some _ _ _ Hc').
  destruct (ok_challenges s Hok id c' Hc') as [_ Hd _ _ _ _ _ Hpen Hst].
  rewrite Hfin' in Hpen. split; [done|]. split; [done|].
  intros env t. apply transact_inl. rewrite exec_finalize. cbv zeta.
  rewrite (challengeAt_Some _ _ _ Hc'), Hfin', (kept_user _ _ Hkept).
  destruct (user c =? 0); [done|].
  rewrite <- (kept_startTime _ _ Hkept), <- (kept_durationDays _ _ Hkept) in Hover.
  unfold mul256, add256.
  destruct (Z.leb_spec (durationDays c' * ONE_DAY) MAX_UINT256); [|done].
  by destruct (Z.leb_spec (startTime c' + durationDays c' * ONE_DAY) MAX_UINT256); [lia|].
Qed.

Lemma X9_unrepresentable_end_never_finalizes_witness :
  let s := Scenario.createdLate.1 in
  let c := challengeAt 1 s in
  let env := Scenario.at_time Scenario.bob MAX_UINT256 in
  (reachable (Token := LedgerToken) s /\ challenges s !! 1 = Some c /\ finalized c = false /\
   MAX_UINT256 < startTime c + durationDays c * ONE_DAY) /\
  transact (Token := LedgerToken) env (finalize env 1) s Scenario.createdLate.2 =
  (inl (if user c =? 0 then NOT_FOUND else PANIC_ARITHMETIC), s, Scenario.createdLate.2).
Proof.
  intros s c env.
  assert (challenges s !! 1 = Some c) as Hc by (vm_compute; reflexivity).
  assert (finalized c = false) as Hfin by (vm_compute; reflexivity).
  assert (MAX_UINT256 < startTime c + durationDays c * ONE_DAY) as Hover
    by (vm_compute; reflexivity).
  split; [exact (conj createdLate_reachable (conj Hc (conj Hfin Hover)))|].
  destruct (X9_unrepresentable_end_never_finalizes (Token := LedgerToken) s s 1 c
              createdLate_reachable Hc Hfin Hover (evolves_refl _)) as (_ & _ & Hnever).
  exact (Hnever env Scenario.createdLate.2).
Defined.

(** ** The sum of the unlocked slices *)

(** X10. In every reachable state the loop of [_sumUnlocked] terminates
    without overflow on every challenge slot and returns the sum of
    [dailySlice] over the unlocked days; that sum is what was paid to the
    owner plus what is released and not yet claimed, and it is at most
    [dailySlice * durationDays], hence at most [principal]. *)
Theorem X10_sumUnlocked_is_the_unlocked_total
    {T : Type} {Token : IERC20 T} (s : Vault) (id : Z) :
  let c := challengeAt id s in
  reachable (T := T) s ->
  _sumUnlocked c = Some (unlockedSlices c) /\
  unlockedSlices c = paidToOwner id (events s) + released c /\
  unlockedSlices c <= dailySlice c * durationDays c /\
  dailySlice c * durationDays c <= principal c.
Proof.
  intros c Hreach. pose proof (reachable_ok s Hreach) as Hok.
  destruct (challenges s !! id) as [c0|] eqn:Hc.
  - pose proof (challengeAt_Some _ _ _ Hc) as Heq. fold c in Heq. subst c0.
    pose proof (ok_challenges s Hok id c Hc) as Hcok.
    rewrite unlockedSlices_size. split; [by eapply sumUnlocked_ok|].
    destruct (challenge_ok_unlocked_le _ _ _ Hcok) as [Hslice _].
    destruct Hcok as [Hp Hd Hs Hdays _ _ Hacc _ _].
    pose proof (size_unlockedDays_le c ltac:(lia) Hdays).
    destruct (slice_times_duration (principal c) (durationDays c)) as (_ & Hle & _); [lia..|].
    rewrite <- Hs in Hle. repeat split; (lia || nia).
  - unfold c. rewrite (challengeAt_None _ _ Hc), unlockedSlices_size, unlockedDays_zero,
      size_empty, (ok_unused s Hok id Hc). simpl. done.
Qed.

Lemma X10_sumUnlocked_is_the_unlocked_total_witness :
  reachable (Token := LedgerToken) Scenario.attested4.1 /\
  _sumUnlocked (challengeAt 1 Scenario.attested4.1) =
  Some (unlockedSlices (challengeAt 1 Scenario.attested4.1)) /\
  unlockedSlices (challengeAt 1 Scenario.attested4.1) =
  paidToOwner 1 (events Scenario.attested4.1) + released (challengeAt 1 Scenario.attested4.1).
Proof.
  split; [exact attested4_reachable|].
  destruct (X10_sumUnlocked_is_the_unlocked_total (Token := LedgerToken)
              Scenario.attested4.1 1 attested4_reachable) as (Hsum & Htotal & _).
  exact (conj Hsum Htotal).
Defined.

(** ** The log and the stored terms *)

Section Log.
Context {T : Type} `{Token : IERC20 T}.

Lemma transact_log env tx s (t : T) :
  exists l, events (vault_after (transact env (runTx env tx) s t)) = events s ++ l.
Proof.
  unfold transact.
  destruct (exec (this env) (runTx env tx s) t) as [e|[[a s'] t']] eqn:Hexec;
    rewrite vault_after_eq; [exists []; by rewrite app_nil_r|].
  destruct tx as [v|b amount st d|id day|id|id].
  - apply setVerifier_success in Hexec as (_ & -> & _). exists []. simpl. by rewrite app_nil_r.
  - rewrite exec_runTx_create in Hexec.
    destruct (exec _ (createChallenge _ _ _ _ _ _) _) as [|[[id1 s1] t1]] eqn:Hcr; [done|].
    simplify_eq. apply createChallenge_success in Hcr as (_ & _ & _ & _ & _ & _ & _ & ->).
    by eexists.
  - apply attestCompletion_success in Hexec as (_ & _ & _ & _ & _ & _ & _ & -> & _). by eexists.
  - apply claimUnlocked_success in Hexec as (_ & _ & _ & ->). by eexists.
  - apply finalize_success in Hexec as (u & _ & _ & _ & _ & _ & _ & _ & ->). by eexists.
Qed.

Lemma evolves_play txs (st : Vault * T) :
  Forall (fun p => valid_env p.1 /\ valid_tx p.2) txs ->
  evolves (T := T) st.1 (play txs st).1.
Proof.
  intros Hall. revert st. induction Hall as [|[env tx] txs [Henv Htx] _ IH] using Forall_ind;
    intros st; [apply evolves_refl|].
  assert (forall s1 s2 s3, evolves (T := T) s1 s2 -> evolves (T := T) s2 s3 ->
                           evolves (T := T) s1 s3) as Htrans.
  { intros s1 s2 s3 H12 H23. induction H23; [done|]. apply evolves_tx; auto. }
  simpl. eapply Htrans; [|apply IH]. simpl.
  apply evolves_tx; [apply evolves_refl|done..].
Qed.
End Log.

(** X11. The log is append-only: whatever transactions are executed,
    failed or not, the events recorded before are still there, in the same
    order, as a prefix of the log. *)
Theorem X11_log_is_append_only {T : Type} {Token : IERC20 T} (s s' : Vault) :
  evolves (T := T) s s' -> exists l, events s' = events s ++ l.
Proof.
  induction 1 as [s|env tx s s' t _ [l IH] _ _].
  - exists []. by rewrite app_nil_r.
  - destruct (transact_log env tx s' t) as [l' Hl']. exists (l ++ l').
    by rewrite Hl', IH, app_assoc.
Qed.

Lemma X11_log_is_append_only_witness :
  evolves (Token := LedgerToken) Scenario.created100.1 Scenario.attested0to3.1 /\
  exists l, events Scenario.attested0to3.1 = events Scenario.created100.1 ++ l.
Proof.
  assert (evolves (Token := LedgerToken) Scenario.created100.1 Scenario.attested0to3.1) as Hev.
  { apply (evolves_play (Token := LedgerToken) Scenario.attest0to3 Scenario.created100).
    repeat constructor; vm_compute; repeat split; discriminate. }
  exact (conj Hev (X11_log_is_append_only (Token := LedgerToken) _ _ Hev)).
Defined.

(** X12. A challenge is never deleted and its terms never change: once
    stored in a reachable state, whatever transactions follow, the record is
    still stored under its identifier with the same user, beneficiary,
    principal, start time, duration and daily slice; a finalized challenge
    stays finalized and every unlocked day stays unlocked. *)
Theorem X12_terms_are_immutable
    {T : Type} {Token : IERC20 T} (s s' : Vault) (id : Z) (c : Challenge) :
  reachable (T := T) s -> challenges s !! id = Some c -> evolves (T := T) s s' ->
  exists c',
    challenges s' !! id = Some c' /\
    user c' = user c /\ beneficiary c' = beneficiary c /\ principal c' = principal c /\
    startTime c' = startTime c /\ durationDays c' = durationDays c /\
    dailySlice c' = dailySlice c /\
    (finalized c = true -> finalized c' = true) /\
    unlockedDays c ⊆ unlockedDays c'.
Proof.
  intros Hreach Hc Hev.
  destruct (evolves_kept s s' id c (reachable_ok s Hreach) Hc Hev) as (_ & c' & Hc' & Hkept).
  exists c'. destruct Hkept as [? ? ? ? ? ? ? Hdays]. repeat split; try done.
  intros i. rewrite !elem_of_unlockedDays. apply Hdays.
Qed.

Lemma X12_terms_are_immutable_witness :
  (reachable (Token := LedgerToken) Scenario.created100.1 /\
   challenges Scenario.created100.1 !! 1 = Some (challengeAt 1 Scenario.created100.1) /\
   evolves (Token := LedgerToken) Scenario.created100.1 Scenario.attested0to3.1) /\
  exists c', challenges Scenario.attested0to3.1 !! 1 = Some c' /\
             principal c' = principal (challengeAt 1 Scenario.created100.1).
Proof.
  assert (challenges Scenario.created100.1 !! 1 = Some (challengeAt 1 Scenario.created100.1))
    as Hc by (vm_compute; reflexivity).
  assert (evolves (Token := LedgerToken) Scenario.created100.1 Scenario.attested0to3.1) as Hev.
  { apply (evolves_play (Token := LedgerToken) Scenario.attest0to3 Scenario.created100).
    repeat constructor; vm_compute; repeat split; discriminate. }
  split; [exact (conj created100_reachable (conj Hc Hev))|].
  destruct (X12_terms_are_immutable (Token := LedgerToken) _ _ 1 _ created100_reachable Hc Hev)
    as (c' & Hc' & _ & _ & Hp & _).
  exists c'. exact (conj Hc' Hp).
Defined.

(** ** Who is paid, and how much *)

(** X13. The rounding remainder goes to the beneficiary: after a
    successful [finalize] in a reachable state, [penalized] is the remainder
    of [principal] by [durationDays] plus one daily slice for each day that
    was not attested, and the [Finalized] event carries that amount. *)
Theorem X13_beneficiary_gets_remainder_and_missed_days
    {T : Type} {Token : IERC20 T} (s : Vault) (env : Env) (id : Z) (t : T) :
  let c := challengeAt id s in
  let r := transact env (finalize env id) s t in
  let missed := durationDays c - Z.of_nat (size (unlockedDays c)) in
  reachable (T := T) s -> outcome r = inr tt ->
  0 <= missed /\
  penalized (challengeAt id (vault_after r)) =
  principal c mod durationDays c + dailySlice c * missed /\
  events (vault_after r) =
  events s ++ [Finalized id (principal c mod durationDays c + dailySlice c * missed)].
Proof.
  intros c r missed Hreach Hr. subst r. pose proof (reachable_ok s Hreach) as Hok.
  apply transact_success in Hr as (s' & t' & Hr & ->). rewrite vault_after_eq.
  apply finalize_success in Hr as (u & Hfin & Hu & _ & Hsum & _ & _ & _ & ->).
  pose proof (stored_challenge id s (or_introl Hu)) as Hc. fold c in Hc, Hfin, Hsum.
  pose proof (ok_challenges s Hok id c Hc) as Hcok.
  rewrite (sumUnlocked_ok _ _ _ Hcok) in Hsum. injection Hsum as <-.
  destruct Hcok as [Hp Hd Hs Hdays _ _ _ Hpen _]. rewrite Hfin in Hpen.
  pose proof (size_unlockedDays_le c ltac:(lia) Hdays) as Hsize.
  destruct (slice_times_duration (principal c) (durationDays c)) as (_ & _ & Hrem & _); [lia..|].
  rewrite <- Hs in Hrem.
  assert (principal c - dailySlice c * Z.of_nat (size (unlockedDays c)) =
          principal c mod durationDays c + dailySlice c * missed) as Heq
    by (subst missed; nia).
  split; [subst missed; lia|].
  unfold finalized_with, settled.
  rewrite challengeAt_add_event, !challengeAt_update_eq. fold c. simpl.
  rewrite Hpen, Z.add_0_l, Heq. done.
Qed.

Lemma X13_beneficiary_gets_remainder_and_missed_days_witness :
  let env := Scenario.at_time Scenario.bob (Scenario.day 7) in
  let r := transact (Token := LedgerToken) env (finalize env 1)
             Scenario.attested4.1 Scenario.attested4.2 in
  (reachable (Token := LedgerToken) Scenario.attested4.1 /\ outcome r = inr tt) /\
  penalized (challengeAt 1 (vault_after r)) =
  principal (challengeAt 1 Scenario.attested4.1) mod durationDays (challengeAt 1 Scenario.attested4.1)
  + dailySlice (challengeAt 1 Scenario.attested4.1)
    * (durationDays (challengeAt 1 Scenario.attested4.1)
       - Z.of_nat (size (unlockedDays (challengeAt 1 Scenario.attested4.1)))).
Proof.
  intros env r.
  assert (outcome r = inr tt) as Hr by (vm_compute; reflexivity).
  split; [exact (conj attested4_reachable Hr)|].
  destruct (X13_beneficiary_gets_remainder_and_missed_days (Token := LedgerToken)
              Scenario.attested4.1 env 1 Scenario.attested4.2 attested4_reachable Hr)
    as (_ & Hpen & _).
  exact Hpen.
Defined.

(** X14. Payments go only where the challenge says: [claimUnlocked] by
    anyone but the challenge's user is rejected with [NOT_USER] and changes
    nothing, and a successful one was sent by the user and made the token
    transfer exactly [released] to that user; a successful [finalize] either
    made no payment or made the token transfer a positive amount to the
    challenge's beneficiary. *)
Theorem X14_payments_reach_user_and_beneficiary
    {T : Type} {Token : IERC20 T} (env : Env) (id : Z) (s : Vault) (t : T) :
  let c := challengeAt id s in
  (msg_sender env <> user c ->
   transact env (claimUnlocked env id) s t = (inl NOT_USER, s, t)) /\
  (let r := transact env (claimUnlocked env id) s t in
   outcome r = inr tt ->
   msg_sender env = user c /\ 0 < released c /\
   transfer (this env) (user c) (released c) t = Some (true, token_after r) /\
   events (vault_after r) = events s ++ [Claimed id (user c) (released c)]) /\
  (let r := transact env (finalize env id) s t in
   outcome r = inr tt ->
   token_after r = t \/
   exists amount, 0 < amount /\
     transfer (this env) (beneficiary c) amount t = Some (true, token_after r)).
Proof.
  intros c. split; [|split].
  - intros Hne. apply transact_inl. rewrite exec_claimUnlocked. cbv zeta. fold c.
    by destruct (Z.eqb_spec (user c) (msg_sender env)); [congruence|].
  - intros r Hr. subst r. apply transact_success in Hr as (s' & t' & Hr & ->).
    rewrite vault_after_eq, token_after_eq.
    apply claimUnlocked_success in Hr as (Hu & Hpos & Hpay & ->). fold c in Hu, Hpos, Hpay.
    rewrite Hu. done.
  - intros r Hr. subst r. apply transact_success in Hr as (s' & t' & Hr & ->).
    rewrite token_after_eq.
    apply finalize_success in Hr as (u & _ & _ & _ & Hsum & Hle & _ & Hpay & _).
    fold c in Hsum, Hle, Hpay. destruct (Z.gtb_spec (principal c - u) 0); [|by left].
    right. exists (principal c - u). split; [lia|done].
Qed.

Lemma X14_payments_reach_user_and_beneficiary_witness :
  let env := Scenario.at_time Scenario.bob (Scenario.day 3) in
  let s := Scenario.attested0to3.1 in
  msg_sender env <> user (challengeAt 1 s) /\
  transact (Token := LedgerToken) env (claimUnlocked env 1) s Scenario.attested0to3.2 =
  (inl NOT_USER, s, Scenario.attested0to3.2).
Proof.
  intros env s.
  assert (msg_sender env <> user (challengeAt 1 s)) as Hne by (vm_compute; discriminate).
  split; [exact Hne|].
  exact (proj1 (X14_payments_reach_user_and_beneficiary (Token := LedgerToken)
                  env 1 s Scenario.attested0to3.2) Hne).
Defined.

(** ** Reading back, and leaving the others alone *)

(** X15. Creating and reading back: after a successful [createChallenge]
    in a reachable state, [getChallenge] of the new identifier returns the
    caller, the beneficiary, the amount, zero released and penalized, the
    start time, the duration, the floor of amount by duration, and not
    finalized; and no day of it is unlocked (the function does not clear
    [dayUnlocked]: the slot is fresh because identifiers are never reused). *)
Theorem X15_create_then_read
    {T : Type} {Token : IERC20 T}
    (s : Vault) (env : Env) (b : address) (amount st d : Z) (t : T) (id : Z) :
  let r := transact env (createChallenge env b amount st d) s t in
  reachable (T := T) s -> outcome r = inr id ->
  getChallenge id (vault_after r) =
  (msg_sender env, b, amount, 0, 0, st, d, amount / d, false) /\
  (forall day, isDayUnlocked id day (vault_after r) = false) /\
  events (vault_after r) = events s ++ [ChallengeCreated id (msg_sender env) b amount st d].
Proof.
  intros r Hreach Hr. subst r. pose proof (reachable_ok s Hreach) as Hok.
  apply transact_success in Hr as (s' & t' & Hexec & ->). rewrite vault_after_eq.
  apply createChallenge_success in Hexec as (_ & _ & _ & _ & -> & _ & _ & ->).
  assert (challengeAt (nextChallengeId s + 1) s = zeroChallenge) as Hfresh.
  { apply challengeAt_None. destruct (challenges s !! _) as [c|] eqn:Hc; [|done].
    apply (ok_ids s Hok) in Hc. lia. }
  unfold getChallenge, isDayUnlocked, challengeAt at 1 2 3 4 5 6 7 8 9 10, created. simpl.
  rewrite lookup_insert_eq, Hfresh. simpl. done.
Qed.

Lemma X15_create_then_read_witness :
  let env := Scenario.at_time Scenario.alice 1000 in
  let r := transact (Token := LedgerToken) env (createChallenge env Scenario.bob 100 1000 7)
             Scenario.deployed Scenario.funded in
  (reachable (Token := LedgerToken) Scenario.deployed /\ outcome r = inr 1) /\
  getChallenge 1 (vault_after r) = (Scenario.alice, Scenario.bob, 100, 0, 0, 1000, 7, 100 / 7, false).
Proof.
  intros env r.
  assert (outcome r = inr 1) as Hr by (vm_compute; reflexivity).
  split; [exact (conj deployed_reachable Hr)|].
  exact (proj1 (X15_create_then_read (Token := LedgerToken) Scenario.deployed env Scenario.bob
                  100 1000 7 Scenario.funded 1 deployed_reachable Hr)).
Defined.

(** X16. Challenges are independent: a transaction reads and writes only
    the slot it names (for a creation, the slot of the next identifier);
    every other slot, and so what the views return for it, is the same
    after the transaction. *)
Theorem X16_other_challenges_untouched
    {T : Type} {Token : IERC20 T} (env : Env) (tx : Tx) (s : Vault) (t : T) (id' : Z) :
  let s' := vault_after (transact env (runTx env tx) s t) in
  tx_target s tx <> Some id' ->
  challengeAt id' s' = challengeAt id' s /\
  getChallenge id' s' = getChallenge id' s /\
  (forall day, isDayUnlocked id' day s' = isDayUnlocked id' day s).
Proof.
  intros s' Hother.
  assert (challengeAt id' s' = challengeAt id' s) as Heq.
  { subst s'. unfold transact.
    destruct (exec (this env) (runTx env tx s) t) as [e|[[a s'] t']] eqn:Hexec;
      rewrite vault_after_eq; [done|].
    destruct tx as [v|b amount st d|id day|id|id]; simpl in Hother.
    - by apply setVerifier_success in Hexec as (_ & -> & _).
    - rewrite exec_runTx_create in Hexec.
      destruct (exec _ (createChallenge _ _ _ _ _ _) _) as [|[[id1 s1] t1]] eqn:Hcr; [done|].
      simplify_eq. apply createChallenge_success in Hcr as (_ & _ & _ & _ & -> & _ & _ & ->).
      unfold challengeAt. simpl. rewrite lookup_insert_ne; [done|congruence].
    - apply attestCompletion_success in Hexec as (_ & _ & _ & _ & _ & _ & _ & -> & _).
      unfold attested. rewrite challengeAt_add_event, !challengeAt_update_ne; [done|congruence..].
    - apply claimUnlocked_success in Hexec as (_ & _ & _ & ->).
      unfold claimed, zeroed. rewrite challengeAt_add_event, challengeAt_update_ne; [done|congruence].
    - apply finalize_success in Hexec as (u & _ & _ & _ & _ & _ & _ & _ & ->).
      unfold finalized_with, settled.
      rewrite challengeAt_add_event, !challengeAt_update_ne; [done|congruence..]. }
  unfold getChallenge, isDayUnlocked. by rewrite Heq.
Qed.

Lemma X16_other_challenges_untouched_witness :
  let env := Scenario.at_time Scenario.alice (Scenario.day 3) in
  let s' := vault_after (transact (Token := LedgerToken) env (runTx env (Tx_claimUnlocked 1))
                           Scenario.attested0to3.1 Scenario.attested0to3.2) in
  tx_target Scenario.attested0to3.1 (Tx_claimUnlocked 1) <> Some 2 /\
  getChallenge 2 s' = getChallenge 2 Scenario.attested0to3.1.
Proof.
  intros env s'.
  assert (tx_target Scenario.attested0to3.1 (Tx_claimUnlocked 1) <> Some 2) as Hne
    by (vm_compute; discriminate).
  split; [exact Hne|].
  destruct (X16_other_challenges_untouched (Token := LedgerToken) env (Tx_claimUnlocked 1)
              Scenario.attested0to3.1 Scenario.attested0to3.2 2 Hne) as (_ & Hview & _).
  exact Hview.
Defined.
